(** * Route programming of the Broadcom switch agent

    A shallow embedding of [fboss/agent/hw/bcm/BcmRoute.cpp]: the next-hop
    weight normalisation ([normalizeNextHops]), the per-route programming
    state machine ([BcmRoute::program], [BcmRoute::~BcmRoute]) and the route
    table ([BcmRouteTable::addRoute], [BcmRouteTable::deleteRoute]). *)

From Stdlib Require Import ZArith List Lia Bool Sorted SpecFloat.
From stdpp Require Import base decidable countable gmap.
Import ListNotations.
Local Open Scope Z_scope.

(** ** Addresses and next hops *)

(** [folly::IPAddress]: an address of either family, as its numeric value. *)
Inductive IPAddress :=
  | IPAddressV4 (a : Z)
  | IPAddressV6 (a : Z).

Definition isV6 (a : IPAddress) : bool :=
  match a with IPAddressV6 _ => true | IPAddressV4 _ => false end.

(** Modelled from the spec: [NextHop], [ResolvedNextHop] and [NextHopWeight]
    are declared outside this file.  A next hop is an address, an interface
    and an integer weight that is never negative; the machine width of the
    weight is not part of the model. *)
Record NextHop := ResolvedNextHop {
  addr : IPAddress;
  intf : Z;
  weight : Z
}.

Global Instance IPAddress_eq_dec : EqDecision IPAddress.
Proof. solve_decision. Defined.

Global Instance NextHop_eq_dec : EqDecision NextHop.
Proof. solve_decision. Defined.

Definition IPAddress_to_sum (a : IPAddress) : Z + Z :=
  match a with IPAddressV4 x => inl x | IPAddressV6 x => inr x end.

Definition IPAddress_of_sum (s : Z + Z) : IPAddress :=
  match s with inl x => IPAddressV4 x | inr x => IPAddressV6 x end.

Global Instance IPAddress_countable : Countable IPAddress :=
  inj_countable' IPAddress_to_sum IPAddress_of_sum
    (fun a => match a with
              | IPAddressV4 _ => eq_refl
              | IPAddressV6 _ => eq_refl
              end).

Definition NextHop_to_tuple (n : NextHop) : IPAddress * Z * Z :=
  (addr n, intf n, weight n).

Definition NextHop_of_tuple (t : IPAddress * Z * Z) : NextHop :=
  ResolvedNextHop t.1.1 t.1.2 t.2.

Global Instance NextHop_countable : Countable NextHop :=
  inj_countable' NextHop_to_tuple NextHop_of_tuple
    (fun n => match n with ResolvedNextHop _ _ _ => eq_refl end).

(** Modelled from the spec: the ordering of [NextHop] that gives
    [RouteNextHopEntry::NextHopSet] its set semantics is declared outside this
    file.  Next hops are ordered by (address, interface); the weight is
    content, not identity. *)
Definition ip_compare (a b : IPAddress) : comparison :=
  match a, b with
  | IPAddressV4 x, IPAddressV4 y => x ?= y
  | IPAddressV4 _, IPAddressV6 _ => Lt
  | IPAddressV6 _, IPAddressV4 _ => Gt
  | IPAddressV6 x, IPAddressV6 y => x ?= y
  end.

Definition nhop_compare (a b : NextHop) : comparison :=
  match ip_compare (addr a) (addr b) with
  | Eq => intf a ?= intf b
  | c => c
  end.

Definition nhop_lt (a b : NextHop) : Prop := nhop_compare a b = Lt.

(** The identity of a next hop. *)
Definition ident (n : NextHop) : IPAddress * Z := (addr n, intf n).

(** A [NextHopSet] is a [flat_set]: its elements in strictly increasing
    order of identity. *)
Abbreviation NextHopSet := (list NextHop).

Definition is_set (s : NextHopSet) : Prop := StronglySorted nhop_lt s.

(** [set.insert(x)]: no effect when an equivalent element is present. *)
Fixpoint set_insert (x : NextHop) (s : NextHopSet) : NextHopSet :=
  match s with
  | [] => [x]
  | y :: s' =>
      match nhop_compare x y with
      | Lt => x :: s
      | Eq => s
      | Gt => y :: set_insert x s'
      end
  end.

(** [set.erase(it)] where [it] points at the element equivalent to [x]. *)
Fixpoint set_erase (x : NextHop) (s : NextHopSet) : NextHopSet :=
  match s with
  | [] => []
  | y :: s' =>
      match nhop_compare x y with
      | Eq => s'
      | _ => y :: set_erase x s'
      end
  end.

(** [std::max_element] with the comparator [n1.weight() < n2.weight()]: the
    first of the elements of largest weight. *)
Fixpoint max_element_from (best : NextHop) (s : NextHopSet) : NextHop :=
  match s with
  | [] => best
  | y :: s' => max_element_from (if weight best <? weight y then y else best) s'
  end.

Definition max_element (s : NextHopSet) : option NextHop :=
  match s with
  | [] => None
  | x :: s' => Some (max_element_from x s')
  end.

(** [std::accumulate] of the weights; the sum is taken over the integers. *)
Definition totalWeightOf (s : NextHopSet) : Z :=
  fold_left (fun w nh => w + weight nh) s 0.

(** ** IEEE 754 binary64 arithmetic of the scaling pass *)

Definition double_prec : Z := 53.
Definition double_emax : Z := 1024.

(** [static_cast<double>(n)]: round to nearest, ties to even. *)
Definition double_of_Z (n : Z) : spec_float :=
  binary_normalize double_prec double_emax n 0 false.

Definition double_div : spec_float -> spec_float -> spec_float :=
  SFdiv double_prec double_emax.

Definition double_mul : spec_float -> spec_float -> spec_float :=
  SFmul double_prec double_emax.

(** [static_cast<NextHopWeight>(x)]: truncation toward zero. *)
Definition Z_of_double (x : spec_float) : Z :=
  match x with
  | S754_finite s m e =>
      cond_Zopp s
        match e with
        | Z0 => Zpos m
        | Zpos _ => Zpos m * 2 ^ e
        | Zneg p => Zpos m / 2 ^ Zpos p
        end
  | _ => 0
  end.

(** ** normalizeNextHops *)

(** Step 1: weight 0 is treated as weight 1. *)
Definition coerceWeight (nhop : NextHop) : NextHop :=
  ResolvedNextHop (addr nhop) (intf nhop) (Z.max (weight nhop) 1).

Definition coerceNextHops (unnormalizedNextHops : NextHopSet) : NextHopSet :=
  fold_left (fun acc nhop => set_insert (coerceWeight nhop) acc)
            unnormalizedNextHops [].

(** Step 2a: [factor = FLAGS_ecmp_width / static_cast<double>(totalWeight)]. *)
Definition scaleFactor (ecmp_width totalWeight : Z) : spec_float :=
  double_div (double_of_Z ecmp_width) (double_of_Z totalWeight).

(** Step 2b, one next hop:
    [std::max(static_cast<NextHopWeight>(nhop.weight() * factor), 1)]. *)
Definition scaledWeight (factor : spec_float) (w : Z) : Z :=
  Z.max (Z_of_double (double_mul (double_of_Z w) factor)) 1.

Definition scaleNextHop (factor : spec_float) (nhop : NextHop) : NextHop :=
  ResolvedNextHop (addr nhop) (intf nhop) (scaledWeight factor (weight nhop)).

(** Step 2b: the scaled set together with [scaledTotalWeight]. *)
Definition scaleNextHops (factor : spec_float) (normalizedNextHops : NextHopSet)
  : NextHopSet * Z :=
  fold_left
    (fun '(scaledNextHops, scaledTotalWeight) nhop =>
       let n := scaleNextHop factor nhop in
       (set_insert n scaledNextHops, scaledTotalWeight + weight n))
    normalizedNextHops ([], 0).

(** Step 2c, one iteration of the loop: the next hop of largest weight is
    replaced by a copy whose weight is one less, or dropped when that weight
    would be 0.  The loop only runs on a non-empty set (see
    [decrementMax_iter_inv]). *)
Definition decrementMax (scaledNextHops : NextHopSet) : NextHopSet :=
  match max_element scaledNextHops with
  | None => scaledNextHops
  | Some maxItr =>
      let decMax :=
        ResolvedNextHop (addr maxItr) (intf maxItr) (weight maxItr - 1) in
      let erased := set_erase maxItr scaledNextHops in
      if 0 <? weight decMax then set_insert decMax erased else erased
  end.

Definition normalizeNextHops (FLAGS_ecmp_width : Z)
    (unnormalizedNextHops : NextHopSet) : NextHopSet :=
  let normalizedNextHops := coerceNextHops unnormalizedNextHops in
  let totalWeight := totalWeightOf normalizedNextHops in
  if FLAGS_ecmp_width <? totalWeight then
    let factor := scaleFactor FLAGS_ecmp_width totalWeight in
    let '(scaledNextHops, scaledTotalWeight) :=
      scaleNextHops factor normalizedNextHops in
    if FLAGS_ecmp_width <? scaledTotalWeight then
      let overflow := scaledTotalWeight - FLAGS_ecmp_width in
      Nat.iter (Z.to_nat overflow) decrementMax scaledNextHops
    else scaledNextHops
  else normalizedNextHops.

(** The sum of the weights of a set, by structural recursion. *)
Definition sum_weights (s : NextHopSet) : Z :=
  fold_right (fun nh a => weight nh + a) 0 s.


(** ** Forwarding decisions *)

Inductive RouteForwardAction := DROP | TO_CPU | NEXTHOPS.

(** Modelled from the spec: [RouteNextHopEntry] is declared outside this
    file.  A forwarding decision is one of drop, send to the control plane,
    or a next-hop set; a value is built by one of the constructors, a fixed
    action with an admin distance or a next-hop set with an admin distance
    (action [NEXTHOPS]). *)
Inductive RouteNextHopEntry :=
  | DropEntry (adminDistance : Z)
  | ToCpuEntry (adminDistance : Z)
  | NextHopsEntry (nhopSet : NextHopSet) (adminDistance : Z).

Definition getAction (fwd : RouteNextHopEntry) : RouteForwardAction :=
  match fwd with
  | DropEntry _ => DROP
  | ToCpuEntry _ => TO_CPU
  | NextHopsEntry _ _ => NEXTHOPS
  end.

Definition getNextHopSet (fwd : RouteNextHopEntry) : NextHopSet :=
  match fwd with
  | NextHopsEntry nhops _ => nhops
  | _ => []
  end.

Definition getAdminDistance (fwd : RouteNextHopEntry) : Z :=
  match fwd with
  | DropEntry d | ToCpuEntry d | NextHopsEntry _ d => d
  end.

Global Instance RouteNextHopEntry_eq_dec : EqDecision RouteNextHopEntry.
Proof. solve_decision. Defined.

(** ** Keys *)

(** [BcmRouteTable::Key{network, mask, vrf}]; the same triple identifies an
    entry of the hardware LPM table. *)
Abbreviation Key := (IPAddress * Z * Z)%type.

(** [BcmHostKey(vrf, addr)]. *)
Abbreviation HostKey := (Z * IPAddress)%type.

(** [std::make_pair(vrf, nhops)], the key of a multipath egress object. *)
Abbreviation EcmpKey := (Z * list NextHop)%type.

(** ** The hardware route descriptor *)

(** [l3a_flags], one boolean per bit that this file sets or compares. *)
Record l3_flags := {
  OPENNSL_L3_IP6 : bool;
  OPENNSL_L3_MULTIPATH : bool;
  OPENNSL_L3_REPLACE : bool
}.

Record opennsl_l3_route_t := {
  l3a_vrf : Z;
  l3a_subnet : IPAddress;
  l3a_masklen : Z;
  l3a_intf : Z;
  l3a_flags : l3_flags
}.

Global Instance l3_flags_eq_dec : EqDecision l3_flags.
Proof. solve_decision. Defined.

Definition initL3RouteFromArgs (vrf : Z) (prefix : IPAddress) (prefixLength : Z)
  : opennsl_l3_route_t :=
  {| l3a_vrf := vrf; l3a_subnet := prefix; l3a_masklen := prefixLength;
     l3a_intf := 0;
     l3a_flags := {| OPENNSL_L3_IP6 := isV6 prefix;
                     OPENNSL_L3_MULTIPATH := false;
                     OPENNSL_L3_REPLACE := false |} |}.

Definition set_l3a_intf (egressId : Z) (rt : opennsl_l3_route_t) :=
  {| l3a_vrf := l3a_vrf rt; l3a_subnet := l3a_subnet rt;
     l3a_masklen := l3a_masklen rt; l3a_intf := egressId;
     l3a_flags := l3a_flags rt |}.

Definition or_MULTIPATH (rt : opennsl_l3_route_t) :=
  {| l3a_vrf := l3a_vrf rt; l3a_subnet := l3a_subnet rt;
     l3a_masklen := l3a_masklen rt; l3a_intf := l3a_intf rt;
     l3a_flags := {| OPENNSL_L3_IP6 := OPENNSL_L3_IP6 (l3a_flags rt);
                     OPENNSL_L3_MULTIPATH := true;
                     OPENNSL_L3_REPLACE := OPENNSL_L3_REPLACE (l3a_flags rt) |} |}.

Definition or_REPLACE (rt : opennsl_l3_route_t) :=
  {| l3a_vrf := l3a_vrf rt; l3a_subnet := l3a_subnet rt;
     l3a_masklen := l3a_masklen rt; l3a_intf := l3a_intf rt;
     l3a_flags := {| OPENNSL_L3_IP6 := OPENNSL_L3_IP6 (l3a_flags rt);
                     OPENNSL_L3_MULTIPATH := OPENNSL_L3_MULTIPATH (l3a_flags rt);
                     OPENNSL_L3_REPLACE := true |} |}.

Definition l3_key (rt : opennsl_l3_route_t) : Key :=
  (l3a_subnet rt, l3a_masklen rt, l3a_vrf rt).

(** ** Calls issued to the collaborators *)

Inductive Call :=
  | IncRefOrCreateBcmEcmpHost (k : EcmpKey)
  | DerefBcmEcmpHost (k : EcmpKey)
  | IncRefOrCreateBcmHost (k : HostKey)
  | DerefBcmHost (k : HostKey)
  | AddToBcmHostTable (k : HostKey) (egressId : Z) (isMultipath replace ok : bool)
  | L3RouteAdd (rt : opennsl_l3_route_t) (ok : bool)
  | L3RouteDelete (k : Key)
  | WarmBootProgrammedRoute (k : Key)
  | WarmBootProgrammedHostRoute (k : HostKey).

(** A write to the forwarding hardware that can fail. *)
Definition isHardwareWrite (c : Call) : bool :=
  match c with
  | AddToBcmHostTable _ _ _ _ _ | L3RouteAdd _ _ | L3RouteDelete _ => true
  | _ => false
  end.

Definition isIncRefEcmp (ek : EcmpKey) (c : Call) : bool :=
  match c with
  | IncRefOrCreateBcmEcmpHost k => bool_decide (k = ek)
  | _ => false
  end.

Definition isDerefEcmp (ek : EcmpKey) (c : Call) : bool :=
  match c with
  | DerefBcmEcmpHost k => bool_decide (k = ek)
  | _ => false
  end.

Definition countCalls (p : Call -> bool) (calls : list Call) : Z :=
  Z.of_nat (length (List.filter p calls)).

(** Acquire calls minus release calls for one multipath egress key. *)
Definition outstandingEcmp (ek : EcmpKey) (calls : list Call) : Z :=
  countCalls (isIncRefEcmp ek) calls - countCalls (isDerefEcmp ek) calls.

(** ** The switch: host table, hardware LPM table, warm boot cache *)

(** Modelled from the spec: [BcmHost] is declared outside this file.  A
    host-table object has its egress, the number of references to it (an
    object exists exactly while it is referenced) and whether its entry is
    written in the hardware host table. *)
Record BcmHost := {
  host_egressId : Z;
  host_refCount : positive;
  host_addedInHw : bool
}.

(** Modelled from the spec: [BcmHostTable] is the EgressResolver, declared
    outside this file.  It keeps, per key, the handle of the shared egress
    object and its reference count; acquire-or-create increments the count,
    release decrements it and destroys the object at zero. *)
Record BcmHostTable := {
  ecmpHosts : gmap EcmpKey (Z * positive);
  hosts : gmap HostKey BcmHost;
  nextEgressId : Z
}.

(** Modelled from the spec: [BcmWarmBootCache] is the reconciliation
    snapshot, declared outside this file: the LPM entries and the host routes
    found in the LPM table when the process attached, less those already
    marked consumed by [programmed]. *)
Record BcmWarmBootCache := {
  vrfAndPrefix2Route : gmap Key opennsl_l3_route_t;
  vrfAndIP2Route : gmap HostKey opennsl_l3_route_t
}.

Record BcmSwitch := {
  hostTable : BcmHostTable;
  l3Routes : gmap Key opennsl_l3_route_t;
  warmBootCache : BcmWarmBootCache;
  calls : list Call
}.

(** Modelled from the spec: [BcmPlatform] and the accessors of [BcmSwitch]
    are declared outside this file.  The platform fixes
    [canUseHostTableForHostRoutes()], the egress handles of the fixed
    actions, and whether [DCHECK]s are compiled in. *)
Record BcmPlatform := {
  canUseHostTableForHostRoutes : bool;
  getDropEgressId : Z;
  getToCPUEgressId : Z;
  dchecksEnabled : bool
}.

Definition withHostTable (ht : BcmHostTable) (hw : BcmSwitch) : BcmSwitch :=
  {| hostTable := ht; l3Routes := l3Routes hw;
     warmBootCache := warmBootCache hw; calls := calls hw |}.

Definition withL3Routes (t : gmap Key opennsl_l3_route_t) (hw : BcmSwitch)
  : BcmSwitch :=
  {| hostTable := hostTable hw; l3Routes := t;
     warmBootCache := warmBootCache hw; calls := calls hw |}.

Definition withWarmBootCache (c : BcmWarmBootCache) (hw : BcmSwitch)
  : BcmSwitch :=
  {| hostTable := hostTable hw; l3Routes := l3Routes hw;
     warmBootCache := c; calls := calls hw |}.

Definition logCall (c : Call) (hw : BcmSwitch) : BcmSwitch :=
  {| hostTable := hostTable hw; l3Routes := l3Routes hw;
     warmBootCache := warmBootCache hw; calls := calls hw ++ [c] |}.

(** The LPM key of the host route of a host-table entry. *)
Definition hostLpmKey (hk : HostKey) : Key :=
  (hk.2, if isV6 hk.2 then 128 else 32, hk.1).

Definition ecmpRefCount (ek : EcmpKey) (hw : BcmSwitch) : Z :=
  match ecmpHosts (hostTable hw) !! ek with
  | Some (_, n) => Zpos n
  | None => 0
  end.

Definition hostRefCount (hk : HostKey) (hw : BcmSwitch) : Z :=
  match hosts (hostTable hw) !! hk with
  | Some h => Zpos (host_refCount h)
  | None => 0
  end.

(** Modelled from the spec: [BcmHostTable::incRefOrCreateBcmEcmpHost] is
    acquire-or-create: the object of the key is created with a fresh egress
    handle on first reference, and its count is incremented afterwards. *)
Definition incRefOrCreateBcmEcmpHost (ek : EcmpKey) (hw : BcmSwitch)
  : Z * BcmSwitch :=
  let ht := hostTable hw in
  let hw' := logCall (IncRefOrCreateBcmEcmpHost ek) hw in
  match ecmpHosts ht !! ek with
  | Some (egressId, n) =>
      (egressId,
       withHostTable {| ecmpHosts := <[ek := (egressId, Pos.succ n)]> (ecmpHosts ht);
                        hosts := hosts ht;
                        nextEgressId := nextEgressId ht |} hw')
  | None =>
      (nextEgressId ht,
       withHostTable {| ecmpHosts := <[ek := (nextEgressId ht, 1%positive)]> (ecmpHosts ht);
                        hosts := hosts ht;
                        nextEgressId := nextEgressId ht + 1 |} hw')
  end.

(** Modelled from the spec: [BcmHostTable::derefBcmEcmpHost] is release:
    the count is decremented and the object destroyed at zero.  Releasing
    a key that the table does not hold is an invariant violation ([None]:
    the process aborts). *)
Definition derefBcmEcmpHost (ek : EcmpKey) (hw : BcmSwitch) : option BcmSwitch :=
  let ht := hostTable hw in
  let hw' := logCall (DerefBcmEcmpHost ek) hw in
  match ecmpHosts ht !! ek with
  | Some (egressId, n) =>
      Some (withHostTable
              {| ecmpHosts := if (n =? 1)%positive then delete ek (ecmpHosts ht)
                              else <[ek := (egressId, Pos.pred n)]> (ecmpHosts ht);
                 hosts := hosts ht;
                 nextEgressId := nextEgressId ht |} hw')
  | None => None
  end.

(** Modelled from the spec: [BcmHostTable::getBcmHostIf], the object of a
    key if the table holds one. *)
Definition getBcmHostIf (hk : HostKey) (hw : BcmSwitch) : option BcmHost :=
  hosts (hostTable hw) !! hk.

Definition withHosts (hs : gmap HostKey BcmHost) (hw : BcmSwitch) : BcmSwitch :=
  withHostTable {| ecmpHosts := ecmpHosts (hostTable hw); hosts := hs;
                   nextEgressId := nextEgressId (hostTable hw) |} hw.

(** Modelled from the spec: [BcmHostTable::incRefOrCreateBcmHost] is
    acquire-or-create for the host handle of a prefix; a new object has no
    egress yet and is not written to hardware. *)
Definition incRefOrCreateBcmHost (hk : HostKey) (hw : BcmSwitch) : BcmSwitch :=
  let hw' := logCall (IncRefOrCreateBcmHost hk) hw in
  match hosts (hostTable hw) !! hk with
  | Some h =>
      withHosts (<[hk := {| host_egressId := host_egressId h;
                            host_refCount := Pos.succ (host_refCount h);
                            host_addedInHw := host_addedInHw h |}]>
                   (hosts (hostTable hw))) hw'
  | None =>
      withHosts (<[hk := {| host_egressId := -1; host_refCount := 1%positive;
                            host_addedInHw := false |}]>
                   (hosts (hostTable hw))) hw'
  end.

(** Modelled from the spec: [BcmHostTable::derefBcmHost] is release for the
    host handle of a prefix; [None] when the table does not hold the key. *)
Definition derefBcmHost (hk : HostKey) (hw : BcmSwitch) : option BcmSwitch :=
  let hw' := logCall (DerefBcmHost hk) hw in
  match hosts (hostTable hw) !! hk with
  | Some h =>
      Some (withHosts
              (if (host_refCount h =? 1)%positive
               then delete hk (hosts (hostTable hw))
               else <[hk := {| host_egressId := host_egressId h;
                               host_refCount := Pos.pred (host_refCount h);
                               host_addedInHw := host_addedInHw h |}]>
                      (hosts (hostTable hw))) hw')
  | None => None
  end.

(** Modelled from the spec: [BcmHost::setEgressId], on the object of key
    [hk]. *)
Definition setEgressId (hk : HostKey) (egressId : Z) (hw : BcmSwitch)
  : BcmSwitch :=
  withHosts (alter (fun h => {| host_egressId := egressId;
                                host_refCount := host_refCount h;
                                host_addedInHw := host_addedInHw h |})
                   hk (hosts (hostTable hw))) hw.

(** Modelled from the spec: [BcmHost::addToBcmHostTable(isMultipath, replace)]
    is declared outside this file.  It writes the host-table entry of the
    object; with [replace] it also removes the LPM entry of the same prefix
    (the two representations are mutually exclusive for a key).  [ok] is the
    outcome of the hardware write; a failed write changes nothing. *)
Definition addToBcmHostTable (ok : bool) (hk : HostKey) (isMultipath replace : bool)
    (hw : BcmSwitch) : BcmSwitch :=
  let egressId :=
    match hosts (hostTable hw) !! hk with
    | Some h => host_egressId h
    | None => -1
    end in
  let hw' := logCall (AddToBcmHostTable hk egressId isMultipath replace ok) hw in
  if ok then
    let hw'' :=
      withHosts (alter (fun h => {| host_egressId := host_egressId h;
                                    host_refCount := host_refCount h;
                                    host_addedInHw := true |})
                       hk (hosts (hostTable hw'))) hw' in
    if replace then withL3Routes (delete (hostLpmKey hk) (l3Routes hw'')) hw''
    else hw''
  else hw'.

(** Modelled from the spec: [opennsl_l3_route_add] is create-or-replace of
    the hardware backend; [ok] is the return code of the SDK, and a failed
    write changes nothing. *)
Definition opennsl_l3_route_add (ok : bool) (rt : opennsl_l3_route_t)
    (hw : BcmSwitch) : BcmSwitch :=
  let hw' := logCall (L3RouteAdd rt ok) hw in
  if ok then withL3Routes (<[l3_key rt := rt]> (l3Routes hw')) hw' else hw'.

(** [BcmRoute::deleteLpmRoute].  [opennsl_l3_route_delete], the delete of
    the hardware backend, fails when the table has no such entry; the
    result says whether an entry was deleted. *)
Definition deleteLpmRoute (vrf : Z) (prefix : IPAddress) (prefixLength : Z)
    (hw : BcmSwitch) : bool * BcmSwitch :=
  let rt := initL3RouteFromArgs vrf prefix prefixLength in
  let hw' := logCall (L3RouteDelete (l3_key rt)) hw in
  match l3Routes hw !! l3_key rt with
  | Some _ => (true, withL3Routes (delete (l3_key rt) (l3Routes hw')) hw')
  | None => (false, hw')
  end.

(** Modelled from the spec: [BcmWarmBootCache::findRoute] and
    [findHostRouteFromRouteTable] look a key up in the snapshot. *)
Definition findRoute (vrf : Z) (prefix : IPAddress) (len : Z) (hw : BcmSwitch)
  : option opennsl_l3_route_t :=
  vrfAndPrefix2Route (warmBootCache hw) !! (prefix, len, vrf).

Definition findHostRouteFromRouteTable (vrf : Z) (prefix : IPAddress)
    (hw : BcmSwitch) : option opennsl_l3_route_t :=
  vrfAndIP2Route (warmBootCache hw) !! (vrf, prefix).

(** Modelled from the spec: [warmBootCache->programmed(it)] marks the entry
    consumed; here for an iterator into [vrfAndPrefix2Route]. *)
Definition programmedRoute (k : Key) (hw : BcmSwitch) : BcmSwitch :=
  let c := warmBootCache hw in
  withWarmBootCache
    {| vrfAndPrefix2Route := delete k (vrfAndPrefix2Route c);
       vrfAndIP2Route := vrfAndIP2Route c |}
    (logCall (WarmBootProgrammedRoute k) hw).

(** Modelled from the spec: [warmBootCache->programmed(it)] for an iterator
    into [vrfAndIP2Route]. *)
Definition programmedHostRoute (hk : HostKey) (hw : BcmSwitch) : BcmSwitch :=
  let c := warmBootCache hw in
  withWarmBootCache
    {| vrfAndPrefix2Route := vrfAndPrefix2Route c;
       vrfAndIP2Route := delete hk (vrfAndIP2Route c) |}
    (logCall (WarmBootProgrammedHostRoute hk) hw).

(** ** BcmRoute *)

Record BcmRoute := {
  vrf_ : Z;
  prefix_ : IPAddress;
  len_ : Z;
  fwd_ : RouteNextHopEntry;
  egressId_ : Z;
  added_ : bool
}.

(** [BcmRoute::BcmRoute]: an entry that is not programmed.  Modelled from
    the spec: the member initialisers are in the header, which is outside
    this file; an entry is created empty, with no forwarding decision and no
    egress. *)
Definition newBcmRoute (vrf : Z) (addr : IPAddress) (len : Z) : BcmRoute :=
  {| vrf_ := vrf; prefix_ := addr; len_ := len;
     fwd_ := DropEntry 255; egressId_ := -1; added_ := false |}.

Definition isHostRoute (r : BcmRoute) : bool :=
  if isV6 (prefix_ r) then len_ r =? 128 else len_ r =? 32.

Definition canUseHostTable (pf : BcmPlatform) (r : BcmRoute) : bool :=
  isHostRoute r && canUseHostTableForHostRoutes pf.

(** How a call ends: it returns, it throws (the state is what the handlers
    that ran on the way out left), or a [CHECK] aborts the process. *)
Inductive Outcome (A : Type) :=
  | Done (a : A)
  | Thrown (a : A)
  | Aborted.
Arguments Done {A} a.
Arguments Thrown {A} a.
Arguments Aborted {A}.

(** The lambda [cleanupHost] of [BcmRoute::program]. *)
Definition cleanupHost (r : BcmRoute) (nhopsClean : NextHopSet) (hw : BcmSwitch)
  : option BcmSwitch :=
  match nhopsClean with
  | [] => Some hw
  | _ :: _ => derefBcmEcmpHost (vrf_ r, nhopsClean) hw
  end.

(** [BcmRoute::programHostRoute]; [ok] is the outcome of the hardware write
    made by [addToBcmHostTable]. *)
Definition programHostRoute (ok : bool) (r : BcmRoute) (egressId : Z)
    (fwd : RouteNextHopEntry) (replace : bool) (hw : BcmSwitch)
  : Outcome BcmSwitch :=
  let hk := (vrf_ r, prefix_ r) in
  let hw1 := incRefOrCreateBcmHost hk hw in
  let hw2 := setEgressId hk egressId hw1 in
  let hw3 :=
    addToBcmHostTable ok hk (1 <? Z.of_nat (length (getNextHopSet fwd)))
                      replace hw2 in
  if ok then Done hw3
  else
    (* SCOPE_FAIL: cleanupHostRoute() *)
    match derefBcmHost hk hw3 with
    | Some hw4 => Thrown hw4
    | None => Aborted
    end.

(** The lambda [equivalent] of [BcmRoute::programLpmRoute]. *)
Definition equivalent (newRoute existingRoute : opennsl_l3_route_t) : bool :=
  bool_decide (l3a_flags existingRoute = l3a_flags newRoute) &&
  (l3a_intf existingRoute =? l3a_intf newRoute).

(** [BcmRoute::programLpmRoute]; [ok] is the return code of
    [opennsl_l3_route_add] when the call is made. *)
Definition programLpmRoute (ok : bool) (r : BcmRoute) (egressId : Z)
    (fwd : RouteNextHopEntry) (hw : BcmSwitch) : Outcome BcmSwitch :=
  let rt0 := set_l3a_intf egressId
               (initL3RouteFromArgs (vrf_ r) (prefix_ r) (len_ r)) in
  let rt1 := if 1 <? Z.of_nat (length (getNextHopSet fwd))
             then or_MULTIPATH rt0 else rt0 in
  let vrfAndPfx2RouteCitr := findRoute (vrf_ r) (prefix_ r) (len_ r) hw in
  let '(rt2, addRoute) :=
    match vrfAndPfx2RouteCitr with
    | Some existingRoute =>
        if negb (equivalent rt1 existingRoute) then (or_REPLACE rt1, true)
        else (rt1, false)
    | None => (rt1, true)
    end in
  let written :=
    if addRoute then
      let rt3 := if added_ r then or_REPLACE rt2 else rt2 in
      let hw1 := opennsl_l3_route_add ok rt3 hw in
      (* bcmCheckError(rc, ...) *)
      if ok then Done hw1 else Thrown hw1
    else Done hw in
  match written with
  | Done hw1 =>
      match vrfAndPfx2RouteCitr with
      | Some _ => Done (programmedRoute (prefix_ r, len_ r, vrf_ r) hw1)
      | None => Done hw1
      end
  | other => other
  end.

(** [BcmRoute::program], "find out the egress object ID": the egress
    handle of the forwarding decision, acquired from the host table for a
    next-hop set; [None] when [CHECK_GT(nhops.size(), 0)] aborts. *)
Definition resolveEgress (pf : BcmPlatform) (fwd : RouteNextHopEntry)
    (r : BcmRoute) (hw : BcmSwitch) : option (Z * BcmSwitch) :=
  match getAction fwd with
  | DROP => Some (getDropEgressId pf, hw)
  | TO_CPU => Some (getToCPUEgressId pf, hw)
  | NEXTHOPS =>
      match getNextHopSet fwd with
      | [] => None
      | nhops => Some (incRefOrCreateBcmEcmpHost (vrf_ r, nhops) hw)
      end
  end.

(** [BcmRoute::program], the host-table branch of "program route into the
    route table or host table". *)
Definition programViaHostTable (pf : BcmPlatform) (ok : bool)
    (fwd : RouteNextHopEntry) (r : BcmRoute) (egressId : Z) (hw1 : BcmSwitch)
  : Outcome BcmSwitch :=
  let hostKey := (vrf_ r, prefix_ r) in
  let dereferenced : option BcmSwitch :=
    if added_ r then
      match getBcmHostIf hostKey hw1 with
      | None => None                        (* CHECK(host) *)
      | Some _ => derefBcmHost hostKey hw1
      end
    else Some hw1 in
  match dereferenced with
  | None => Aborted
  | Some hw2 =>
      let vrfAndIP2RouteCitr :=
        findHostRouteFromRouteTable (vrf_ r) (prefix_ r) hw2 in
      let entryExistsInRouteTable :=
        match vrfAndIP2RouteCitr with
        | Some _ => true
        | None => false
        end in
      match programHostRoute ok r egressId fwd entryExistsInRouteTable hw2 with
      | Done hw3 =>
          if entryExistsInRouteTable then
            (* DCHECK(!deleteLpmRoute(...)) *)
            let checked : option BcmSwitch :=
              if dchecksEnabled pf then
                let '(deleted, hw4) :=
                  deleteLpmRoute (vrf_ r) (prefix_ r) (len_ r) hw3 in
                if deleted then None else Some hw4
              else Some hw3 in
            match checked with
            | None => Aborted
            | Some hw4 => Done (programmedHostRoute hostKey hw4)
            end
          else Done hw3
      | other => other
      end
  end.

(** [BcmRoute::program], "program route into the route table or host
    table". *)
Definition installRoute (pf : BcmPlatform) (ok : bool)
    (fwd : RouteNextHopEntry) (r : BcmRoute) (egressId : Z) (hw1 : BcmSwitch)
  : Outcome BcmSwitch :=
  if canUseHostTable pf r then programViaHostTable pf ok fwd r egressId hw1
  else programLpmRoute ok r egressId fwd hw1.

(** [BcmRoute::program].  [ok] is the outcome of the hardware write that the
    call makes, if it makes one. *)
Definition program (pf : BcmPlatform) (ok : bool) (fwd : RouteNextHopEntry)
    (r : BcmRoute) (hw : BcmSwitch) : Outcome (BcmRoute * BcmSwitch) :=
  if added_ r && bool_decide (fwd = fwd_ r) then Done (r, hw)
  else
    match resolveEgress pf fwd r hw with
    | None => Aborted
    | Some (egressId, hw1) =>
        match installRoute pf ok fwd r egressId hw1 with
        | Aborted => Aborted
        | Thrown hw2 =>
            (* SCOPE_FAIL: cleanupHost(fwd.getNextHopSet()) *)
            match cleanupHost r (getNextHopSet fwd) hw2 with
            | Some hw3 => Thrown (r, hw3)
            | None => Aborted
            end
        | Done hw2 =>
            (* the route was added before: free the old next hops *)
            let released : option BcmSwitch :=
              if added_ r then cleanupHost r (getNextHopSet (fwd_ r)) hw2
              else Some hw2 in
            match released with
            | None => Aborted
            | Some hw3 =>
                Done ({| vrf_ := vrf_ r; prefix_ := prefix_ r; len_ := len_ r;
                         fwd_ := fwd; egressId_ := egressId; added_ := true |},
                      hw3)
            end
        end
    end.

(** [BcmRoute::~BcmRoute]; [None] when a [CHECK] aborts. *)
Definition destroyBcmRoute (pf : BcmPlatform) (r : BcmRoute) (hw : BcmSwitch)
  : option BcmSwitch :=
  if negb (added_ r) then Some hw
  else
    let removed : option BcmSwitch :=
      if canUseHostTable pf r then
        let hostKey := (vrf_ r, prefix_ r) in
        match getBcmHostIf hostKey hw with
        | None => None                      (* CHECK(host) *)
        | Some _ => derefBcmHost hostKey hw
        end
      else Some (deleteLpmRoute (vrf_ r) (prefix_ r) (len_ r) hw).2 in
    match removed with
    | None => None
    | Some hw1 =>
        match getNextHopSet (fwd_ r) with
        | [] => Some hw1
        | nhops => derefBcmEcmpHost (vrf_ r, nhops) hw1
        end
    end.

(** ** BcmRouteTable *)

(** Modelled from the spec: [RouteV4] and [RouteV6] are declared outside
    this file; the table reads the prefix, whether the route is resolved and
    its forwarding decision. *)
Record Route := {
  prefix_network : IPAddress;
  prefix_mask : Z;
  isResolved : bool;
  getForwardInfo : RouteNextHopEntry
}.

Definition routeKey (vrf : Z) (route : Route) : Key :=
  (prefix_network route, prefix_mask route, vrf).

(** [BcmRouteTable::addRoute]; [FLAGS_ecmp_width] is the configured width. *)
Definition addRoute (pf : BcmPlatform) (FLAGS_ecmp_width : Z) (ok : bool)
    (vrf : Z) (route : Route) (fib_ : gmap Key BcmRoute) (hw : BcmSwitch)
  : Outcome (gmap Key BcmRoute * BcmSwitch) :=
  let key := routeKey vrf route in
  let '(fib1, entry) :=
    match fib_ !! key with
    | Some r => (fib_, r)
    | None =>
        let r := newBcmRoute vrf (prefix_network route) (prefix_mask route) in
        (<[key := r]> fib_, r)
    end in
  if negb (isResolved route) then Aborted   (* CHECK(route->isResolved()) *)
  else
    let fwd0 := getForwardInfo route in
    let fwd :=
      match getAction fwd0 with
      | NEXTHOPS =>
          NextHopsEntry (normalizeNextHops FLAGS_ecmp_width (getNextHopSet fwd0))
                        (getAdminDistance fwd0)
      | _ => fwd0
      end in
    match program pf ok fwd entry hw with
    | Done (r', hw') => Done (<[key := r']> fib1, hw')
    | Thrown (r', hw') => Thrown (<[key := r']> fib1, hw')
    | Aborted => Aborted
    end.

(** [BcmRouteTable::deleteRoute]. *)
Definition deleteRoute (pf : BcmPlatform) (vrf : Z) (route : Route)
    (fib_ : gmap Key BcmRoute) (hw : BcmSwitch)
  : Outcome (gmap Key BcmRoute * BcmSwitch) :=
  let key := routeKey vrf route in
  match fib_ !! key with
  | None => Thrown (fib_, hw)               (* FbossError *)
  | Some r =>
      match destroyBcmRoute pf r hw with
      | Some hw' => Done (delete key fib_, hw')
      | None => Aborted
      end
  end.

(** ** Sequences of table operations *)

Inductive TableOp :=
  | AddRoute (ok : bool) (vrf : Z) (route : Route)
  | DeleteRoute (vrf : Z) (route : Route).

Definition applyOp (pf : BcmPlatform) (FLAGS_ecmp_width : Z) (op : TableOp)
    (st : gmap Key BcmRoute * BcmSwitch)
  : Outcome (gmap Key BcmRoute * BcmSwitch) :=
  match op with
  | AddRoute ok vrf route => addRoute pf FLAGS_ecmp_width ok vrf route st.1 st.2
  | DeleteRoute vrf route => deleteRoute pf vrf route st.1 st.2
  end.

(** The state after a sequence of calls that all returned; [None] as soon
    as one of them throws or aborts. *)
Fixpoint runSuccessful (pf : BcmPlatform) (FLAGS_ecmp_width : Z)
    (ops : list TableOp) (st : gmap Key BcmRoute * BcmSwitch)
  : option (gmap Key BcmRoute * BcmSwitch) :=
  match ops with
  | [] => Some st
  | op :: ops' =>
      match applyOp pf FLAGS_ecmp_width op st with
      | Done st' => runSuccessful pf FLAGS_ecmp_width ops' st'
      | _ => None
      end
  end.

(** ** Vocabulary of the statements *)

(** A call to the multipath part of the host table. *)
Definition isEcmpCall (c : Call) : bool :=
  match c with
  | IncRefOrCreateBcmEcmpHost _ | DerefBcmEcmpHost _ => true
  | _ => false
  end.

(** [hw'] is reached from [hw] by calls that leave the multipath egress
    objects and their reference counts alone. *)
Definition ecmpFrame (hw hw' : BcmSwitch) : Prop :=
  ecmpHosts (hostTable hw') = ecmpHosts (hostTable hw) /\
  exists new, calls hw' = calls hw ++ new /\
              Forall (fun c => isEcmpCall c = false) new.


Definition b2z (b : bool) : Z := if b then 1 else 0.

(** A route entry points at the egress object of [(vrf, nhops)]. *)
Definition pointsAt (ek : EcmpKey) (r : BcmRoute) : bool :=
  added_ r &&
  match fwd_ r with
  | NextHopsEntry nhops _ => bool_decide ((vrf_ r, nhops) = ek)
  | _ => false
  end.

(** The number of entries of the table that point at [ek]. *)
Definition entriesPointingAt (ek : EcmpKey) (fib_ : gmap Key BcmRoute) : Z :=
  Z.of_nat (length (List.filter (fun kr => pointsAt ek kr.2) (map_to_list fib_))).

(** An entry that is programmed has what its destructor and a later
    [program] will release: its host-table object when it uses the host
    table, and the egress object of its next hops. *)
Definition backed (pf : BcmPlatform) (hw : BcmSwitch) (r : BcmRoute) : Prop :=
  added_ r = true ->
  (canUseHostTable pf r = true ->
   is_Some (hosts (hostTable hw) !! (vrf_ r, prefix_ r))) /\
  (getNextHopSet (fwd_ r) <> [] ->
   is_Some (ecmpHosts (hostTable hw) !! (vrf_ r, getNextHopSet (fwd_ r)))).

(** An entry that is programmed with action [NEXTHOPS] records a next-hop
    set that is not empty ([program] checks it before it acquires). *)
Definition validFwd (r : BcmRoute) : Prop :=
  added_ r = true -> getAction (fwd_ r) = NEXTHOPS ->
  getNextHopSet (fwd_ r) <> [].


(** The state a call leaves behind, whether it returned or threw. *)
Definition stateAfter {A : Type} (o : Outcome A) (default : A) : A :=
  match o with
  | Done a | Thrown a => a
  | Aborted => default
  end.

(** ** Concrete inputs used by the examples *)

Definition hopA (w : Z) : NextHop := ResolvedNextHop (IPAddressV4 1) 1 w.
Definition hopB (w : Z) : NextHop := ResolvedNextHop (IPAddressV4 2) 1 w.
Definition hopC (w : Z) : NextHop := ResolvedNextHop (IPAddressV4 3) 1 w.

(** A platform with the host-table shortcut, and one without. *)
Definition hostPlatform : BcmPlatform :=
  {| canUseHostTableForHostRoutes := true; getDropEgressId := 1;
     getToCPUEgressId := 2; dchecksEnabled := true |}.

Definition lpmPlatform : BcmPlatform :=
  {| canUseHostTableForHostRoutes := false; getDropEgressId := 1;
     getToCPUEgressId := 2; dchecksEnabled := true |}.

(** 10.0.0.1/32 and 10.1.0.0/16. *)
Definition hostRouteTo (fwd : RouteNextHopEntry) : Route :=
  {| prefix_network := IPAddressV4 167772161; prefix_mask := 32;
     isResolved := true; getForwardInfo := fwd |}.

Definition subnetRouteTo (fwd : RouteNextHopEntry) : Route :=
  {| prefix_network := IPAddressV4 167837696; prefix_mask := 16;
     isResolved := true; getForwardInfo := fwd |}.

(** A switch with nothing programmed and an empty warm boot cache. *)
Definition emptySwitch : BcmSwitch :=
  {| hostTable := {| ecmpHosts := ∅; hosts := ∅; nextEgressId := 100000 |};
     l3Routes := ∅;
     warmBootCache := {| vrfAndPrefix2Route := ∅; vrfAndIP2Route := ∅ |};
     calls := [] |}.

(** The entry of 10.0.0.1/32 and the switch after the entry was programmed
    through the host table towards next hop A. *)
Definition programmedHostEntry : BcmRoute * BcmSwitch :=
  stateAfter
    (program hostPlatform true (NextHopsEntry [hopA 1] 10)
             (newBcmRoute 0 (IPAddressV4 167772161) 32) emptySwitch)
    (newBcmRoute 0 (IPAddressV4 167772161) 32, emptySwitch).

(** Two routes over the same next hops are added, then one is deleted. *)
Definition sharedNextHopsOps : list TableOp :=
  [AddRoute true 0 (subnetRouteTo (NextHopsEntry [hopA 1; hopB 1] 10));
   AddRoute true 0 (hostRouteTo (NextHopsEntry [hopA 1; hopB 1] 10));
   DeleteRoute 0 (subnetRouteTo (NextHopsEntry [hopA 1; hopB 1] 10))].


(** A switch that attached to hardware holding an LPM entry for
    10.0.0.1/32: the warm boot cache lists the entry, also as a host route
    found in the route table. *)
Definition warmBootedRoute : opennsl_l3_route_t :=
  set_l3a_intf 100042 (initL3RouteFromArgs 0 (IPAddressV4 167772161) 32).

Definition warmBootedSwitch : BcmSwitch :=
  {| hostTable := {| ecmpHosts := ∅; hosts := ∅; nextEgressId := 100000 |};
     l3Routes := {[ (IPAddressV4 167772161, 32, 0) := warmBootedRoute ]};
     warmBootCache :=
       {| vrfAndPrefix2Route :=
            {[ (IPAddressV4 167772161, 32, 0) := warmBootedRoute ]};
          vrfAndIP2Route :=
            {[ (0, IPAddressV4 167772161) := warmBootedRoute ]} |};
     calls := [] |}.

(** ** The flag validator *)

(** [ValidateEcmpWidth(flagname, value)]: the flag is rejected when it is
    negative; the message printed on rejection is not modelled. *)
Definition ValidateEcmpWidth (value : Z) : bool :=
  if value <? 0 then false else true.

(** ** The order of the table keys *)

(** [BcmRouteTable::Key::operator<]: by vrf, then by mask, then by network.
    [network_lt] is [operator<] of [folly::IPAddress], which is not part of
    this file. *)
Definition Key_lt (network_lt : IPAddress -> IPAddress -> bool)
    (k k2 : Key) : bool :=
  let '(network, mask, vrf) := k in
  let '(network2, mask2, vrf2) := k2 in
  if vrf <? vrf2 then true
  else if vrf2 <? vrf then false
  else if mask <? mask2 then true
  else if mask2 <? mask then false
  else network_lt network network2.

(** The order of addresses used in the examples: by family, then by value. *)
Definition ip_ltb (a b : IPAddress) : bool :=
  match ip_compare a b with Lt => true | _ => false end.

(** ** Lookups in the table *)

(** [BcmRouteTable::getBcmRouteIf]: the entry, or [None] for [nullptr]. *)
Definition getBcmRouteIf (fib_ : gmap Key BcmRoute) (vrf : Z)
    (network : IPAddress) (mask : Z) : option BcmRoute :=
  fib_ !! (network, mask, vrf).

(** [BcmRouteTable::getBcmRoute]: throws when there is no entry; a lookup
    leaves the table as it is. *)
Definition getBcmRoute (fib_ : gmap Key BcmRoute) (vrf : Z)
    (network : IPAddress) (mask : Z) : Outcome (option BcmRoute) :=
  match getBcmRouteIf fib_ vrf network mask with
  | None => Thrown None                     (* FbossError *)
  | Some rt => Done (Some rt)
  end.

(** ** Sequences of calls, failed ones included *)

(** The state after a sequence of calls: a call that throws leaves the state
    its handlers left and the caller goes on; [None] when a [CHECK] aborts
    the process. *)
Fixpoint runCalls (pf : BcmPlatform) (FLAGS_ecmp_width : Z)
    (ops : list TableOp) (st : gmap Key BcmRoute * BcmSwitch)
  : option (gmap Key BcmRoute * BcmSwitch) :=
  match ops with
  | [] => Some st
  | op :: ops' =>
      match applyOp pf FLAGS_ecmp_width op st with
      | Done st' | Thrown st' => runCalls pf FLAGS_ecmp_width ops' st'
      | Aborted => None
      end
  end.

(** ** Vocabulary of the further statements *)

(** A call to the host-object part of the host table. *)
Definition isHostCall (c : Call) : bool :=
  match c with
  | IncRefOrCreateBcmHost _ | DerefBcmHost _
  | AddToBcmHostTable _ _ _ _ _ | WarmBootProgrammedHostRoute _ => true
  | _ => false
  end.

(** A call that writes the hardware LPM table or consumes an LPM entry of
    the warm boot cache. *)
Definition isLpmCall (c : Call) : bool :=
  match c with
  | L3RouteAdd _ _ | WarmBootProgrammedRoute _ => true
  | _ => false
  end.

Definition isL3RouteAdd (c : Call) : bool :=
  match c with L3RouteAdd _ _ => true | _ => false end.

(** The descriptor that [programLpmRoute] builds before it looks at the
    warm boot cache. *)
Definition lpmDescriptor (r : BcmRoute) (egressId : Z)
    (fwd : RouteNextHopEntry) : opennsl_l3_route_t :=
  let rt := set_l3a_intf egressId
              (initL3RouteFromArgs (vrf_ r) (prefix_ r) (len_ r)) in
  if 1 <? Z.of_nat (length (getNextHopSet fwd)) then or_MULTIPATH rt else rt.

(** The recorded egress handle of a programmed entry is the handle of the
    egress object of its next hops, which the host table holds. *)
Definition egressLive (hw : BcmSwitch) (r : BcmRoute) : Prop :=
  added_ r = true -> getNextHopSet (fwd_ r) <> [] ->
  exists n, ecmpHosts (hostTable hw) !! (vrf_ r, getNextHopSet (fwd_ r)) =
            Some (egressId_ r, n).

(** Every entry of the table is stored under the key of its own prefix. *)
Definition keyedByPrefix (fib_ : gmap Key BcmRoute) : Prop :=
  forall k r, fib_ !! k = Some r -> (prefix_ r, len_ r, vrf_ r) = k.

Definition isSomeb {A : Type} (o : option A) : bool :=
  match o with Some _ => true | None => false end.

(** The warm boot cache holds an entry for the prefix of [r] that
    [programLpmRoute] has to overwrite, or holds none: a write is needed. *)
Definition lpmWriteNeeded (r : BcmRoute) (egressId : Z)
    (fwd : RouteNextHopEntry) (hw : BcmSwitch) : bool :=
  match findRoute (vrf_ r) (prefix_ r) (len_ r) hw with
  | Some existingRoute =>
      negb (equivalent (lpmDescriptor r egressId fwd) existingRoute)
  | None => true
  end.

(** An entry of 10.1.0.0/16 that is not programmed, and a switch whose warm
    boot cache lists the LPM entry that programming it towards next hop A
    with egress 100000 would write. *)
Definition subnetEntry : BcmRoute :=
  newBcmRoute 0 (IPAddressV4 167837696) 16.

Definition switchWithEquivalentRoute : BcmSwitch :=
  {| hostTable := {| ecmpHosts := ∅; hosts := ∅; nextEgressId := 100000 |};
     l3Routes :=
       {[ (IPAddressV4 167837696, 16, 0) :=
            lpmDescriptor subnetEntry 100000 (NextHopsEntry [hopA 1] 10) ]};
     warmBootCache :=
       {| vrfAndPrefix2Route :=
            {[ (IPAddressV4 167837696, 16, 0) :=
                 lpmDescriptor subnetEntry 100000 (NextHopsEntry [hopA 1] 10) ]};
          vrfAndIP2Route := ∅ |};
     calls := [] |}.
(** * Theory *)

Local Arguments Pos.eqb : simpl never.

(** ** The identity order is a strict total order on identities *)

Lemma ip_compare_refl a : ip_compare a a = Eq.
Proof. destruct a; simpl; apply Z.compare_refl. Qed.

Lemma ip_compare_eq a b : ip_compare a b = Eq -> a = b.
Proof.
  destruct a, b; simpl; intros H; try discriminate;
    apply Z.compare_eq in H; by subst.
Qed.

Lemma ip_compare_antisym a b : ip_compare b a = CompOpp (ip_compare a b).
Proof. destruct a, b; simpl; try reflexivity; apply Z.compare_antisym. Qed.

Lemma ip_compare_trans a b c :
  ip_compare a b = Lt -> ip_compare b c = Lt -> ip_compare a c = Lt.
Proof.
  destruct a, b, c; simpl; try congruence; rewrite !Z.compare_lt_iff; lia.
Qed.

Lemma nhop_compare_refl x : nhop_compare x x = Eq.
Proof. unfold nhop_compare. rewrite ip_compare_refl. apply Z.compare_refl. Qed.

Lemma nhop_compare_eq_ident x y : nhop_compare x y = Eq <-> ident x = ident y.
Proof.
  unfold nhop_compare, ident. split.
  - destruct (ip_compare (addr x) (addr y)) eqn:E; try discriminate.
    intros H. apply ip_compare_eq in E. apply Z.compare_eq in H. congruence.
  - intros [= -> ->]. rewrite ip_compare_refl. apply Z.compare_refl.
Qed.

Lemma nhop_compare_antisym x y : nhop_compare y x = CompOpp (nhop_compare x y).
Proof.
  unfold nhop_compare. rewrite (ip_compare_antisym (addr x) (addr y)).
  destruct (ip_compare (addr x) (addr y)); simpl; try reflexivity.
  apply Z.compare_antisym.
Qed.

Lemma nhop_compare_ident_l x x' y :
  ident x = ident x' -> nhop_compare x y = nhop_compare x' y.
Proof. unfold ident, nhop_compare. by intros [= -> ->]. Qed.

Lemma nhop_compare_ident_r x y y' :
  ident y = ident y' -> nhop_compare x y = nhop_compare x y'.
Proof. unfold ident, nhop_compare. by intros [= -> ->]. Qed.

Lemma nhop_lt_gt x y : nhop_lt y x -> nhop_compare x y = Gt.
Proof. unfold nhop_lt. intros H. by rewrite nhop_compare_antisym, H. Qed.

Lemma nhop_lt_trans x y z : nhop_lt x y -> nhop_lt y z -> nhop_lt x z.
Proof.
  unfold nhop_lt, nhop_compare.
  destruct (ip_compare (addr x) (addr y)) eqn:E1; try discriminate;
    destruct (ip_compare (addr y) (addr z)) eqn:E2; try discriminate;
    intros H1 H2.
  - apply ip_compare_eq in E1, E2. rewrite E1, E2, ip_compare_refl.
    rewrite Z.compare_lt_iff in *. lia.
  - apply ip_compare_eq in E1. by rewrite E1, E2.
  - apply ip_compare_eq in E2. by rewrite <- E2, E1.
  - by rewrite (ip_compare_trans _ _ _ E1 E2).
Qed.

(** ** Sums of weights *)

Lemma fold_left_weights s a :
  fold_left (fun w nh => w + weight nh) s a = a + sum_weights s.
Proof.
  revert a. induction s as [|x s IH]; intros a; simpl; [lia|].
  rewrite IH. lia.
Qed.

Lemma totalWeightOf_sum s : totalWeightOf s = sum_weights s.
Proof. unfold totalWeightOf. by rewrite fold_left_weights. Qed.

Lemma sum_weights_app l1 l2 :
  sum_weights (l1 ++ l2) = sum_weights l1 + sum_weights l2.
Proof. induction l1 as [|x l1 IH]; simpl; lia. Qed.

Lemma sum_weights_le_length c s :
  Forall (fun y => weight y <= c) s ->
  sum_weights s <= c * Z.of_nat (length s).
Proof. induction 1; simpl length; simpl sum_weights; lia. Qed.

Lemma sum_weights_ge_length s :
  Forall (fun y => 1 <= weight y) s -> Z.of_nat (length s) <= sum_weights s.
Proof. induction 1; simpl length; simpl sum_weights; lia. Qed.

(** ** Insertion into and erasure from a set *)

Lemma set_insert_Forall (P : NextHop -> Prop) x s :
  P x -> Forall P s -> Forall P (set_insert x s).
Proof.
  intros Hx. induction 1 as [|y s Hy Hs IH]; simpl.
  - by constructor.
  - destruct (nhop_compare x y); repeat constructor; assumption.
Qed.

Lemma set_insert_is_set x s : is_set s -> is_set (set_insert x s).
Proof.
  unfold is_set. induction 1 as [|y s Hs IH Hy]; simpl.
  - repeat constructor.
  - destruct (nhop_compare x y) eqn:E.
    + by constructor.
    + constructor; [by constructor|]. constructor; [exact E|].
      eapply List.Forall_impl; [|exact Hy]. intros z Hz.
      eapply nhop_lt_trans; [exact E | exact Hz].
    + constructor; [exact IH|]. apply set_insert_Forall; [|exact Hy].
      unfold nhop_lt. by rewrite nhop_compare_antisym, E.
Qed.

Lemma set_insert_length x s : (length (set_insert x s) <= S (length s))%nat.
Proof.
  induction s as [|y s IH]; simpl; [lia|].
  destruct (nhop_compare x y); simpl; lia.
Qed.

Lemma set_insert_ident x s i :
  In i (map ident (set_insert x s)) <-> i = ident x \/ In i (map ident s).
Proof.
  induction s as [|y s IH]; simpl.
  - intuition congruence.
  - destruct (nhop_compare x y) eqn:E; simpl.
    + apply nhop_compare_eq_ident in E. rewrite E. intuition congruence.
    + intuition congruence.
    + rewrite IH. intuition congruence.
Qed.

Lemma set_insert_last x s :
  Forall (fun y => nhop_lt y x) s -> set_insert x s = s ++ [x].
Proof.
  induction 1 as [|y s Hy Hs IH]; simpl; [reflexivity|].
  by rewrite (nhop_lt_gt _ _ Hy), IH.
Qed.

Lemma StronglySorted_app_below {A} (R : A -> A -> Prop) l1 x l2 :
  StronglySorted R (l1 ++ x :: l2) -> Forall (fun y => R y x) l1.
Proof.
  induction l1 as [|a l1 IH]; simpl; intros H; [constructor|].
  apply StronglySorted_inv in H as [H1 H2]. constructor; [|by apply IH].
  rewrite List.Forall_forall in H2. apply H2. apply in_or_app. right. by left.
Qed.

Lemma fold_insert_sorted l acc :
  is_set (acc ++ l) ->
  fold_left (fun a x => set_insert x a) l acc = acc ++ l.
Proof.
  revert acc. induction l as [|x l IH]; intros acc H; simpl.
  - by rewrite app_nil_r.
  - rewrite (set_insert_last x acc).
    + rewrite IH; rewrite <- app_assoc; [reflexivity | exact H].
    + eapply StronglySorted_app_below. exact H.
Qed.

Lemma fold_insert_map (g : NextHop -> NextHop) l acc :
  fold_left (fun a nh => set_insert (g nh) a) l acc =
  fold_left (fun a x => set_insert x a) (map g l) acc.
Proof. revert acc. induction l as [|x l IH]; intros acc; simpl; auto. Qed.

Lemma is_set_map (g : NextHop -> NextHop) s :
  (forall x, ident (g x) = ident x) -> is_set s -> is_set (map g s).
Proof.
  intros Hg. unfold is_set. induction 1 as [|y s Hs IH Hy]; simpl.
  - constructor.
  - constructor; [exact IH|]. rewrite List.Forall_map.
    eapply List.Forall_impl; [|exact Hy]. intros z Hz. unfold nhop_lt.
    by rewrite <- (nhop_compare_ident_l _ _ _ (eq_sym (Hg y))),
               <- (nhop_compare_ident_r _ _ _ (eq_sym (Hg z))).
Qed.

Lemma fold_insert_is_set l acc :
  is_set acc -> is_set (fold_left (fun a x => set_insert x a) l acc).
Proof.
  revert acc. induction l as [|x l IH]; intros acc H; simpl; [exact H|].
  apply IH. by apply set_insert_is_set.
Qed.

Lemma fold_insert_Forall (P : NextHop -> Prop) l acc :
  Forall P l -> Forall P acc ->
  Forall P (fold_left (fun a x => set_insert x a) l acc).
Proof.
  revert acc. induction l as [|x l IH]; intros acc Hl H; simpl; [exact H|].
  pose proof (List.Forall_inv Hl) as Hx. apply List.Forall_inv_tail in Hl.
  apply IH; [exact Hl|]. by apply set_insert_Forall.
Qed.

Lemma fold_insert_length l acc :
  (length (fold_left (fun a x => set_insert x a) l acc)
   <= length acc + length l)%nat.
Proof.
  revert acc. induction l as [|x l IH]; intros acc; simpl; [lia|].
  specialize (IH (set_insert x acc)).
  pose proof (set_insert_length x acc). lia.
Qed.

Lemma fold_insert_ident l acc i :
  In i (map ident (fold_left (fun a x => set_insert x a) l acc)) <->
  In i (map ident l) \/ In i (map ident acc).
Proof.
  revert acc. induction l as [|x l IH]; intros acc; simpl.
  - intuition.
  - rewrite IH, set_insert_ident. intuition.
Qed.

Lemma set_erase_Forall (P : NextHop -> Prop) x s :
  Forall P s -> Forall P (set_erase x s).
Proof.
  induction 1 as [|y s Hy Hs IH]; simpl; [constructor|].
  destruct (nhop_compare x y); try assumption; by constructor.
Qed.

Lemma set_erase_is_set x s : is_set s -> is_set (set_erase x s).
Proof.
  unfold is_set. induction 1 as [|y s Hs IH Hy]; simpl; [constructor|].
  destruct (nhop_compare x y); try assumption;
    (constructor; [exact IH | by apply set_erase_Forall]).
Qed.

(** Erasing an element of a set and inserting an element of the same
    identity splits the set around that element. *)
Lemma set_erase_insert_split m m' s :
  is_set s -> In m s -> ident m' = ident m ->
  exists l1 l2,
    s = l1 ++ m :: l2 /\
    set_erase m s = l1 ++ l2 /\
    set_insert m' (set_erase m s) = l1 ++ m' :: l2.
Proof.
  intros Hs Hin Hid. unfold is_set in Hs.
  induction Hs as [|y s Hs IH Hy]; [destruct Hin|].
  destruct Hin as [->|Hin].
  - exists [], s. simpl. rewrite nhop_compare_refl. repeat split.
    destruct Hy as [|z s Hz Hy]; simpl; [reflexivity|].
    by rewrite (nhop_compare_ident_l _ _ _ Hid), Hz.
  - destruct (IH Hin) as (l1 & l2 & E1 & E2 & E3).
    assert (Hlt : nhop_lt y m).
    { rewrite List.Forall_forall in Hy. by apply Hy. }
    exists (y :: l1), l2. simpl.
    rewrite (nhop_lt_gt _ _ Hlt). simpl.
    rewrite (nhop_compare_ident_l _ _ _ Hid), (nhop_lt_gt _ _ Hlt), E3.
    repeat split; congruence.
Qed.

(** ** The element chosen by [std::max_element] *)

Lemma max_element_from_spec s : forall best,
  let m := max_element_from best s in
  (m = best \/ In m s) /\ weight best <= weight m /\
  Forall (fun y => weight y <= weight m) s.
Proof.
  induction s as [|y s IH]; intros best; simpl.
  - repeat split; [by left | lia | constructor].
  - destruct (IH (if weight best <? weight y then y else best))
      as (H1 & H2 & H3).
    destruct (Z.ltb_spec (weight best) (weight y)) as [Hlt|Hge].
    + repeat split.
      * destruct H1 as [->|H1]; right; [by left | by right].
      * lia.
      * constructor; [lia | exact H3].
    + repeat split.
      * destruct H1 as [H1|H1]; [by left | right; by right].
      * exact H2.
      * constructor; [lia | exact H3].
Qed.

Lemma max_element_spec s m :
  max_element s = Some m ->
  In m s /\ Forall (fun y => weight y <= weight m) s.
Proof.
  destruct s as [|x s]; simpl; [discriminate|]. intros [= <-].
  destruct (max_element_from_spec s x) as (H1 & H2 & H3). split.
  - destruct H1 as [->|H1]; [by left | by right].
  - by constructor.
Qed.

Lemma max_element_nonempty s :
  0 < sum_weights s -> exists m, max_element s = Some m.
Proof. destruct s; simpl; [lia | eauto]. Qed.

(** ** One step of the overflow correction *)

Lemma decrementMax_step s :
  is_set s -> Forall (fun y => 1 <= weight y) s -> 0 < sum_weights s ->
  is_set (decrementMax s) /\
  Forall (fun y => 1 <= weight y) (decrementMax s) /\
  sum_weights (decrementMax s) = sum_weights s - 1.
Proof.
  intros Hs Hw Hpos. unfold decrementMax.
  destruct (max_element_nonempty s Hpos) as [m Hm]. rewrite Hm.
  destruct (max_element_spec s m Hm) as [Hin Hmax].
  set (decMax := ResolvedNextHop (addr m) (intf m) (weight m - 1)).
  destruct (set_erase_insert_split m decMax s Hs Hin eq_refl)
    as (l1 & l2 & E1 & E2 & E3).
  assert (Hm1 : 1 <= weight m).
  { rewrite List.Forall_forall in Hw. by apply Hw. }
  simpl weight. destruct (Z.ltb_spec 0 (weight m - 1)) as [Hlt|Hge].
  - repeat split.
    + by apply set_insert_is_set, set_erase_is_set.
    + apply set_insert_Forall; [simpl; lia | by apply set_erase_Forall].
    + rewrite E3, E1, !sum_weights_app. simpl. lia.
  - repeat split.
    + by apply set_erase_is_set.
    + by apply set_erase_Forall.
    + rewrite E2, E1, !sum_weights_app. simpl. lia.
Qed.

(** When the total weight exceeds the number of next hops, the largest weight
    is at least 2 and the step keeps every identity. *)
Lemma decrementMax_ident s :
  is_set s -> Forall (fun y => 1 <= weight y) s ->
  Z.of_nat (length s) < sum_weights s ->
  map ident (decrementMax s) = map ident s.
Proof.
  intros Hs Hw Hbig. unfold decrementMax.
  destruct (max_element_nonempty s) as [m Hm]; [lia|]. rewrite Hm.
  destruct (max_element_spec s m Hm) as [Hin Hmax].
  set (decMax := ResolvedNextHop (addr m) (intf m) (weight m - 1)).
  destruct (set_erase_insert_split m decMax s Hs Hin eq_refl)
    as (l1 & l2 & E1 & E2 & E3).
  pose proof (sum_weights_le_length _ _ Hmax) as Hle.
  assert (Hm2 : 2 <= weight m) by nia.
  simpl weight. destruct (Z.ltb_spec 0 (weight m - 1)) as [Hlt|Hge]; [|lia].
  rewrite E3, E1, !map_app. reflexivity.
Qed.

(** ** The loop of step 2c *)

Lemma decrementMax_iter_inv n : forall s,
  is_set s -> Forall (fun y => 1 <= weight y) s ->
  Z.of_nat n <= sum_weights s ->
  is_set (Nat.iter n decrementMax s) /\
  Forall (fun y => 1 <= weight y) (Nat.iter n decrementMax s) /\
  sum_weights (Nat.iter n decrementMax s) = sum_weights s - Z.of_nat n.
Proof.
  induction n as [|n IH]; intros s Hs Hw Hn.
  - simpl. repeat split; [assumption | assumption | lia].
  - destruct (IH s Hs Hw) as (H1 & H2 & H3); [lia|].
    rewrite Nat.iter_succ.
    destruct (decrementMax_step _ H1 H2) as (K1 & K2 & K3); [lia|].
    repeat split; [assumption | assumption | lia].
Qed.

Lemma decrementMax_iter_ident n : forall s,
  is_set s -> Forall (fun y => 1 <= weight y) s ->
  Z.of_nat (length s) + Z.of_nat n <= sum_weights s ->
  map ident (Nat.iter n decrementMax s) = map ident s.
Proof.
  induction n as [|n IH]; intros s Hs Hw Hn; [reflexivity|].
  rewrite Nat.iter_succ.
  destruct (decrementMax_iter_inv n s Hs Hw) as (H1 & H2 & H3); [lia|].
  assert (IHn : map ident (Nat.iter n decrementMax s) = map ident s)
    by (apply IH; [assumption | assumption | lia]).
  rewrite decrementMax_ident; [exact IHn | assumption | assumption |].
  rewrite <- (length_map ident), IHn, length_map. lia.
Qed.

(** ** Step 1 and step 2b on sets *)

Lemma coerceWeight_ident x : ident (coerceWeight x) = ident x.
Proof. reflexivity. Qed.

Lemma scaleNextHop_ident f x : ident (scaleNextHop f x) = ident x.
Proof. reflexivity. Qed.

Lemma coerceWeight_fixed x : 1 <= weight x -> coerceWeight x = x.
Proof.
  destruct x as [a i w]. unfold coerceWeight. simpl. intros H.
  by rewrite Z.max_l.
Qed.

Lemma coerceNextHops_is_set S : is_set (coerceNextHops S).
Proof.
  unfold coerceNextHops. rewrite fold_insert_map.
  apply fold_insert_is_set. constructor.
Qed.

Lemma coerceNextHops_weights S :
  Forall (fun y => 1 <= weight y) (coerceNextHops S).
Proof.
  unfold coerceNextHops. rewrite fold_insert_map.
  apply fold_insert_Forall; [|constructor].
  rewrite List.Forall_map. apply List.Forall_forall. intros x _. simpl. lia.
Qed.

Lemma coerceNextHops_ident S i :
  In i (map ident (coerceNextHops S)) <-> In i (map ident S).
Proof.
  unfold coerceNextHops. rewrite fold_insert_map, fold_insert_ident.
  rewrite map_map. simpl. intuition.
Qed.

Lemma coerceNextHops_length S :
  (length (coerceNextHops S) <= length S)%nat.
Proof.
  unfold coerceNextHops. rewrite fold_insert_map.
  pose proof (fold_insert_length (map coerceWeight S) []) as H.
  rewrite length_map in H. simpl in H. exact H.
Qed.

Lemma coerceNextHops_set S :
  is_set S -> coerceNextHops S = map coerceWeight S.
Proof.
  intros HS. unfold coerceNextHops. rewrite fold_insert_map.
  apply (fold_insert_sorted _ []). simpl.
  by apply is_set_map; [apply coerceWeight_ident|].
Qed.

Lemma coerceNextHops_fixed S :
  is_set S -> Forall (fun y => 1 <= weight y) S -> coerceNextHops S = S.
Proof.
  intros HS HW. rewrite coerceNextHops_set by assumption.
  induction HW as [|x S Hx HW IH]; simpl; [reflexivity|].
  apply StronglySorted_inv in HS as [HS _].
  by rewrite coerceWeight_fixed, IH.
Qed.

Lemma scaleNextHops_fold f l : forall acc t,
  fold_left
    (fun '(scaledNextHops, scaledTotalWeight) nhop =>
       let n := scaleNextHop f nhop in
       (set_insert n scaledNextHops, scaledTotalWeight + weight n))
    l (acc, t) =
  (fold_left (fun a x => set_insert x a) (map (scaleNextHop f) l) acc,
   t + sum_weights (map (scaleNextHop f) l)).
Proof.
  induction l as [|x l IH]; intros acc t; simpl.
  - f_equal. lia.
  - rewrite IH. f_equal. lia.
Qed.

(** On a set the scaling pass rewrites the weights in place. *)
Lemma scaleNextHops_set f N :
  is_set N ->
  scaleNextHops f N =
  (map (scaleNextHop f) N, sum_weights (map (scaleNextHop f) N)).
Proof.
  intros HN. unfold scaleNextHops. rewrite scaleNextHops_fold. f_equal.
  apply (fold_insert_sorted _ []). simpl.
  by apply is_set_map; [apply scaleNextHop_ident|].
Qed.

Lemma scaleNextHop_weights f N :
  Forall (fun y => 1 <= weight y) (map (scaleNextHop f) N).
Proof.
  rewrite List.Forall_map. apply List.Forall_forall. intros x _.
  unfold scaleNextHop, scaledWeight. simpl. lia.
Qed.

(** ** What normalisation establishes *)

(** The three outcomes of [normalizeNextHops] on the coerced set [N]. *)
Lemma normalizeNextHops_unfold W S :
  let N := coerceNextHops S in
  let scaled := map (scaleNextHop (scaleFactor W (sum_weights N))) N in
  normalizeNextHops W S =
  if W <? sum_weights N then
    if W <? sum_weights scaled then
      Nat.iter (Z.to_nat (sum_weights scaled - W)) decrementMax scaled
    else scaled
  else N.
Proof.
  intros N scaled. unfold normalizeNextHops. fold N.
  rewrite totalWeightOf_sum.
  rewrite (scaleNextHops_set _ N (coerceNextHops_is_set S)).
  reflexivity.
Qed.

Lemma normalizeNextHops_inv W S :
  0 <= W ->
  is_set (normalizeNextHops W S) /\
  Forall (fun y => 1 <= weight y) (normalizeNextHops W S) /\
  sum_weights (normalizeNextHops W S) <= W.
Proof.
  intros HW. rewrite normalizeNextHops_unfold.
  set (N := coerceNextHops S).
  set (scaled := map (scaleNextHop (scaleFactor W (sum_weights N))) N).
  pose proof (coerceNextHops_is_set S) as HN.
  pose proof (coerceNextHops_weights S) as HNw.
  assert (Hs : is_set scaled)
    by (apply is_set_map; [apply scaleNextHop_ident | exact HN]).
  pose proof (scaleNextHop_weights (scaleFactor W (sum_weights N)) N) as Hsw.
  fold scaled in Hsw.
  destruct (Z.ltb_spec W (sum_weights N)) as [H1|H1].
  - destruct (Z.ltb_spec W (sum_weights scaled)) as [H2|H2].
    + destruct (decrementMax_iter_inv
                  (Z.to_nat (sum_weights scaled - W)) scaled Hs Hsw)
        as (K1 & K2 & K3); [lia|].
      repeat split; [assumption | assumption | lia].
    + repeat split; assumption.
  - repeat split; assumption.
Qed.


(** With at most [W] next hops the correction never drops one. *)
Lemma normalizeNextHops_ident W S :
  0 <= W -> (Z.of_nat (length S) <= W) ->
  map ident (normalizeNextHops W S) = map ident (coerceNextHops S).
Proof.
  intros HW Hlen. rewrite normalizeNextHops_unfold.
  set (N := coerceNextHops S).
  set (scaled := map (scaleNextHop (scaleFactor W (sum_weights N))) N).
  pose proof (coerceNextHops_is_set S) as HN.
  pose proof (coerceNextHops_length S) as HNl. fold N in HNl.
  assert (Hs : is_set scaled)
    by (apply is_set_map; [apply scaleNextHop_ident | exact HN]).
  pose proof (scaleNextHop_weights (scaleFactor W (sum_weights N)) N) as Hsw.
  fold scaled in Hsw.
  assert (Hid : map ident scaled = map ident N).
  { unfold scaled. rewrite map_map. reflexivity. }
  assert (Hl : length scaled = length N) by (unfold scaled; apply length_map).
  destruct (Z.ltb_spec W (sum_weights N)) as [H1|H1]; [|reflexivity].
  destruct (Z.ltb_spec W (sum_weights scaled)) as [H2|H2]; [|exact Hid].
  rewrite decrementMax_iter_ident; [exact Hid | assumption | assumption |].
  rewrite Hl. lia.
Qed.


(** * The switch primitives *)

Lemma countCalls_app p l1 l2 :
  countCalls p (l1 ++ l2) = countCalls p l1 + countCalls p l2.
Proof. unfold countCalls. rewrite List.filter_app, length_app. lia. Qed.

Lemma countCalls_silent p new :
  Forall (fun c => p c = false) new -> countCalls p new = 0.
Proof.
  unfold countCalls. induction 1 as [|c l Hc Hl IH]; simpl; [reflexivity|].
  rewrite Hc. exact IH.
Qed.

Lemma isIncRefEcmp_silent ek c : isEcmpCall c = false -> isIncRefEcmp ek c = false.
Proof. by destruct c. Qed.

Lemma isDerefEcmp_silent ek c : isEcmpCall c = false -> isDerefEcmp ek c = false.
Proof. by destruct c. Qed.

Lemma outstandingEcmp_app ek l1 l2 :
  outstandingEcmp ek (l1 ++ l2) = outstandingEcmp ek l1 + outstandingEcmp ek l2.
Proof. unfold outstandingEcmp. rewrite !countCalls_app. lia. Qed.

Lemma outstandingEcmp_silent ek new :
  Forall (fun c => isEcmpCall c = false) new -> outstandingEcmp ek new = 0.
Proof.
  intros H. unfold outstandingEcmp.
  rewrite !countCalls_silent; [lia | |];
    (eapply List.Forall_impl; [|exact H]); intros c Hc;
    [by apply isDerefEcmp_silent | by apply isIncRefEcmp_silent].
Qed.

Lemma outstandingEcmp_frame ek hw hw' :
  ecmpFrame hw hw' ->
  outstandingEcmp ek (calls hw') = outstandingEcmp ek (calls hw).
Proof.
  intros (_ & new & -> & Hnew).
  rewrite outstandingEcmp_app, (outstandingEcmp_silent ek new Hnew). lia.
Qed.

Lemma ecmpFrame_refl hw : ecmpFrame hw hw.
Proof. split; [reflexivity|]. exists []. by rewrite app_nil_r. Qed.

Lemma ecmpFrame_trans hw1 hw2 hw3 :
  ecmpFrame hw1 hw2 -> ecmpFrame hw2 hw3 -> ecmpFrame hw1 hw3.
Proof.
  intros (E1 & n1 & C1 & F1) (E2 & n2 & C2 & F2). split; [congruence|].
  exists (n1 ++ n2). rewrite C2, C1, <- app_assoc. split; [reflexivity|].
  apply List.Forall_app. by split.
Qed.

Lemma ecmpFrame_logCall c hw : isEcmpCall c = false -> ecmpFrame hw (logCall c hw).
Proof.
  intros Hc. split; [reflexivity|]. exists [c]. split; [reflexivity|].
  by repeat constructor.
Qed.

Lemma ecmpFrame_withHosts hs hw : ecmpFrame hw (withHosts hs hw).
Proof. split; [reflexivity|]. exists []. by rewrite app_nil_r. Qed.

Lemma ecmpFrame_withL3Routes t hw : ecmpFrame hw (withL3Routes t hw).
Proof. split; [reflexivity|]. exists []. by rewrite app_nil_r. Qed.

Lemma ecmpFrame_withWarmBootCache c hw : ecmpFrame hw (withWarmBootCache c hw).
Proof. split; [reflexivity|]. exists []. by rewrite app_nil_r. Qed.

Ltac frame_steps :=
  repeat first
    [ apply ecmpFrame_refl
    | (eapply ecmpFrame_trans; [|apply ecmpFrame_withHosts])
    | (eapply ecmpFrame_trans; [|apply ecmpFrame_withL3Routes])
    | (eapply ecmpFrame_trans; [|apply ecmpFrame_withWarmBootCache])
    | (eapply ecmpFrame_trans; [|by apply ecmpFrame_logCall]) ].

Lemma ecmpFrame_incRefOrCreateBcmHost hk hw :
  ecmpFrame hw (incRefOrCreateBcmHost hk hw).
Proof. unfold incRefOrCreateBcmHost. case_match; frame_steps. Qed.

Lemma ecmpFrame_derefBcmHost hk hw hw' :
  derefBcmHost hk hw = Some hw' -> ecmpFrame hw hw'.
Proof.
  unfold derefBcmHost. case_match; [|discriminate]. intros [= <-].
  frame_steps.
Qed.

Lemma ecmpFrame_setEgressId hk e hw : ecmpFrame hw (setEgressId hk e hw).
Proof. unfold setEgressId. frame_steps. Qed.

Lemma ecmpFrame_addToBcmHostTable ok hk mp rp hw :
  ecmpFrame hw (addToBcmHostTable ok hk mp rp hw).
Proof.
  unfold addToBcmHostTable. destruct ok; [destruct rp|]; frame_steps.
Qed.

Lemma ecmpFrame_opennsl_l3_route_add ok rt hw :
  ecmpFrame hw (opennsl_l3_route_add ok rt hw).
Proof. unfold opennsl_l3_route_add. destruct ok; frame_steps. Qed.

Lemma ecmpFrame_deleteLpmRoute vrf p l hw :
  ecmpFrame hw (deleteLpmRoute vrf p l hw).2.
Proof. unfold deleteLpmRoute. case_match; simpl; frame_steps. Qed.

Lemma ecmpFrame_programmedRoute k hw : ecmpFrame hw (programmedRoute k hw).
Proof. unfold programmedRoute. frame_steps. Qed.

Lemma ecmpFrame_programmedHostRoute hk hw :
  ecmpFrame hw (programmedHostRoute hk hw).
Proof. unfold programmedHostRoute. frame_steps. Qed.

Lemma ecmpFrame_programHostRoute ok r e fwd rp hw hw' :
  programHostRoute ok r e fwd rp hw = Done hw' \/
  programHostRoute ok r e fwd rp hw = Thrown hw' ->
  ecmpFrame hw hw'.
Proof.
  unfold programHostRoute.
  set (hk := (vrf_ r, prefix_ r)).
  set (hw3 := addToBcmHostTable ok hk _ rp _).
  assert (F : ecmpFrame hw hw3).
  { eapply ecmpFrame_trans; [apply ecmpFrame_incRefOrCreateBcmHost|].
    eapply ecmpFrame_trans; [apply ecmpFrame_setEgressId|].
    apply ecmpFrame_addToBcmHostTable. }
  destruct ok.
  - intros [[= <-]|[=]]. exact F.
  - destruct (derefBcmHost hk hw3) as [hw4|] eqn:E; intros [[=]|[= <-]].
    eapply ecmpFrame_trans; [exact F|]. eapply ecmpFrame_derefBcmHost, E.
Qed.

Lemma ecmpFrame_programLpmRoute ok r e fwd hw hw' :
  programLpmRoute ok r e fwd hw = Done hw' \/
  programLpmRoute ok r e fwd hw = Thrown hw' ->
  ecmpFrame hw hw'.
Proof.
  unfold programLpmRoute.
  destruct (findRoute (vrf_ r) (prefix_ r) (len_ r) hw) as [ex|];
    [destruct (negb (equivalent _ ex))|]; destruct ok;
    intros [[= <-]|[= <-]]; frame_steps;
    try (eapply ecmpFrame_trans;
         [apply ecmpFrame_opennsl_l3_route_add | frame_steps]);
    apply ecmpFrame_opennsl_l3_route_add.
Qed.

(** ** Acquiring and releasing a multipath egress object *)

Lemma incRefOrCreateBcmEcmpHost_calls ek hw :
  calls (incRefOrCreateBcmEcmpHost ek hw).2 =
  calls hw ++ [IncRefOrCreateBcmEcmpHost ek].
Proof.
  unfold incRefOrCreateBcmEcmpHost.
  destruct (ecmpHosts (hostTable hw) !! ek) as [[e n]|]; reflexivity.
Qed.

Lemma derefBcmEcmpHost_calls ek hw hw' :
  derefBcmEcmpHost ek hw = Some hw' ->
  calls hw' = calls hw ++ [DerefBcmEcmpHost ek].
Proof.
  unfold derefBcmEcmpHost.
  destruct (ecmpHosts (hostTable hw) !! ek) as [[e n]|]; [|discriminate].
  by intros [= <-].
Qed.

Lemma incRefOrCreateBcmEcmpHost_rest ek hw :
  hosts (hostTable (incRefOrCreateBcmEcmpHost ek hw).2) = hosts (hostTable hw) /\
  l3Routes (incRefOrCreateBcmEcmpHost ek hw).2 = l3Routes hw /\
  warmBootCache (incRefOrCreateBcmEcmpHost ek hw).2 = warmBootCache hw.
Proof.
  unfold incRefOrCreateBcmEcmpHost.
  destruct (ecmpHosts (hostTable hw) !! ek) as [[e n]|]; by repeat split.
Qed.

Lemma derefBcmEcmpHost_rest ek hw hw' :
  derefBcmEcmpHost ek hw = Some hw' ->
  hosts (hostTable hw') = hosts (hostTable hw) /\
  l3Routes hw' = l3Routes hw /\
  warmBootCache hw' = warmBootCache hw.
Proof.
  unfold derefBcmEcmpHost.
  destruct (ecmpHosts (hostTable hw) !! ek) as [[e n]|]; [|discriminate].
  intros [= <-]. by repeat split.
Qed.

Lemma derefBcmEcmpHost_is_Some ek hw :
  is_Some (ecmpHosts (hostTable hw) !! ek) -> is_Some (derefBcmEcmpHost ek hw).
Proof.
  intros [[e n] H]. unfold derefBcmEcmpHost. rewrite H. eauto.
Qed.

Lemma incRefOrCreateBcmEcmpHost_keeps ek ek' hw :
  is_Some (ecmpHosts (hostTable hw) !! ek') ->
  is_Some (ecmpHosts (hostTable (incRefOrCreateBcmEcmpHost ek hw).2) !! ek').
Proof.
  intros H. unfold incRefOrCreateBcmEcmpHost.
  destruct (ecmpHosts (hostTable hw) !! ek) as [[e n]|] eqn:E; simpl;
    (destruct (decide (ek = ek')) as [->|Hne];
     [rewrite lookup_insert_eq; eauto | by rewrite lookup_insert_ne]).
Qed.

Lemma incRefOrCreateBcmEcmpHost_refCount ek ek' hw :
  ecmpRefCount ek' (incRefOrCreateBcmEcmpHost ek hw).2 =
  ecmpRefCount ek' hw + b2z (bool_decide (ek' = ek)).
Proof.
  unfold incRefOrCreateBcmEcmpHost, ecmpRefCount.
  destruct (ecmpHosts (hostTable hw) !! ek) as [[e n]|] eqn:E; simpl;
    (case_bool_decide as Hk; simpl;
     [subst ek'; rewrite lookup_insert_eq, E; lia
     | rewrite lookup_insert_ne by congruence;
       destruct (ecmpHosts (hostTable hw) !! ek') as [[e' n']|]; lia]).
Qed.



(** ** The blocks of [program] *)

Lemma resolveEgress_inv pf fwd r hw e hw1 :
  resolveEgress pf fwd r hw = Some (e, hw1) ->
  (getNextHopSet fwd = [] /\ hw1 = hw /\ getAction fwd <> NEXTHOPS) \/
  (getNextHopSet fwd <> [] /\ getAction fwd = NEXTHOPS /\
   (e, hw1) = incRefOrCreateBcmEcmpHost (vrf_ r, getNextHopSet fwd) hw).
Proof.
  unfold resolveEgress. destruct fwd as [d|d|[|n nhs] d]; simpl; intros H;
    try discriminate.
  - injection H as <- <-. by left.
  - injection H as <- <-. by left.
  - right. repeat split; [discriminate|].
    injection H as H. rewrite <- H. reflexivity.
Qed.

Lemma ecmpFrame_programViaHostTable pf ok fwd r e hw hw' :
  programViaHostTable pf ok fwd r e hw = Done hw' \/
  programViaHostTable pf ok fwd r e hw = Thrown hw' ->
  ecmpFrame hw hw'.
Proof.
  unfold programViaHostTable.
  set (hk := (vrf_ r, prefix_ r)).
  destruct (if added_ r then _ else Some hw) as [hw2|] eqn:D;
    [|by intros [[=]|[=]]].
  assert (F2 : ecmpFrame hw hw2).
  { destruct (added_ r).
    - destruct (getBcmHostIf hk hw); [|discriminate].
      eapply ecmpFrame_derefBcmHost, D.
    - injection D as <-. apply ecmpFrame_refl. }
  destruct (programHostRoute ok r e fwd _ hw2) as [hw3|hw3|] eqn:P;
    [| |by intros [[=]|[=]]].
  - assert (F3 : ecmpFrame hw hw3).
    { eapply ecmpFrame_trans; [exact F2|].
      eapply ecmpFrame_programHostRoute. left. exact P. }
    destruct (findHostRouteFromRouteTable (vrf_ r) (prefix_ r) hw2).
    + destruct (dchecksEnabled pf).
      * pose proof (ecmpFrame_deleteLpmRoute (vrf_ r) (prefix_ r) (len_ r) hw3)
          as F4.
        destruct (deleteLpmRoute (vrf_ r) (prefix_ r) (len_ r) hw3)
          as [[] hw4]; [by intros [[=]|[=]]|].
        intros [[= <-]|[=]].
        eapply ecmpFrame_trans; [exact F3|].
        eapply ecmpFrame_trans; [exact F4|].
        apply ecmpFrame_programmedHostRoute.
      * intros [[= <-]|[=]].
        eapply ecmpFrame_trans; [exact F3|].
        apply ecmpFrame_programmedHostRoute.
    + by intros [[= <-]|[=]].
  - intros [[=]|[= <-]].
    eapply ecmpFrame_trans; [exact F2|].
    eapply ecmpFrame_programHostRoute. right. exact P.
Qed.

Lemma ecmpFrame_installRoute pf ok fwd r e hw hw' :
  installRoute pf ok fwd r e hw = Done hw' \/
  installRoute pf ok fwd r e hw = Thrown hw' ->
  ecmpFrame hw hw'.
Proof.
  unfold installRoute. destruct (canUseHostTable pf r).
  - apply ecmpFrame_programViaHostTable.
  - apply ecmpFrame_programLpmRoute.
Qed.

Lemma cleanupHost_nil r hw : cleanupHost r [] hw = Some hw.
Proof. reflexivity. Qed.



(** What a call of [program] that returns has done, unless it was the no-op. *)
Lemma program_Done_inv pf ok fwd r hw r' hw' :
  program pf ok fwd r hw = Done (r', hw') ->
  (added_ r = true /\ fwd = fwd_ r /\ r' = r /\ hw' = hw) \/
  (exists e hw1 hw2,
     resolveEgress pf fwd r hw = Some (e, hw1) /\
     installRoute pf ok fwd r e hw1 = Done hw2 /\
     (if added_ r then cleanupHost r (getNextHopSet (fwd_ r)) hw2
      else Some hw2) = Some hw' /\
     r' = {| vrf_ := vrf_ r; prefix_ := prefix_ r; len_ := len_ r;
             fwd_ := fwd; egressId_ := e; added_ := true |}).
Proof.
  unfold program.
  destruct (added_ r && bool_decide (fwd = fwd_ r)) eqn:N.
  - intros [= <- <-]. left. apply andb_true_iff in N as [-> N].
    apply bool_decide_eq_true in N. by repeat split.
  - destruct (resolveEgress pf fwd r hw) as [[e hw1]|]; [|discriminate].
    destruct (installRoute pf ok fwd r e hw1) as [hw2|hw2|] eqn:I;
      [| |discriminate].
    + destruct (if added_ r then _ else _) as [hw3|] eqn:C; [|discriminate].
      intros [= <- <-]. right. by exists e, hw1, hw2.
    + destruct (cleanupHost r (getNextHopSet fwd) hw2); discriminate.
Qed.

(** ** References to host-table objects *)




Lemma derefBcmHost_is_Some hk hw :
  is_Some (hosts (hostTable hw) !! hk) -> is_Some (derefBcmHost hk hw).
Proof. intros [h H]. unfold derefBcmHost. rewrite H. eauto. Qed.




Lemma hosts_deleteLpmRoute vrf p l hw :
  hosts (hostTable (deleteLpmRoute vrf p l hw).2) = hosts (hostTable hw).
Proof. unfold deleteLpmRoute. by case_match. Qed.





Lemma hosts_cleanupHost r nhops hw hw' :
  cleanupHost r nhops hw = Some hw' ->
  hosts (hostTable hw') = hosts (hostTable hw) /\
  l3Routes hw' = l3Routes hw /\
  warmBootCache hw' = warmBootCache hw.
Proof.
  destruct nhops as [|n nhops]; simpl.
  - by intros [= <-].
  - apply derefBcmEcmpHost_rest.
Qed.

Lemma hosts_resolveEgress pf fwd r hw e hw1 :
  resolveEgress pf fwd r hw = Some (e, hw1) ->
  hosts (hostTable hw1) = hosts (hostTable hw) /\
  l3Routes hw1 = l3Routes hw /\
  warmBootCache hw1 = warmBootCache hw.
Proof.
  intros H. apply resolveEgress_inv in H as [(_ & -> & _)|(_ & _ & H)].
  - by repeat split.
  - pose proof (incRefOrCreateBcmEcmpHost_rest
                  (vrf_ r, getNextHopSet fwd) hw) as R.
    rewrite <- H in R. exact R.
Qed.

Lemma outstandingEcmp_inc ek ek0 :
  outstandingEcmp ek [IncRefOrCreateBcmEcmpHost ek0] = b2z (bool_decide (ek0 = ek)).
Proof.
  unfold outstandingEcmp, countCalls. simpl. by case_bool_decide.
Qed.

Lemma outstandingEcmp_deref ek ek0 :
  outstandingEcmp ek [DerefBcmEcmpHost ek0] = - b2z (bool_decide (ek0 = ek)).
Proof.
  unfold outstandingEcmp, countCalls. simpl. by case_bool_decide.
Qed.

Lemma outstandingEcmp_cleanupHost ek r nhops hw hw' :
  cleanupHost r nhops hw = Some hw' ->
  outstandingEcmp ek (calls hw') =
  outstandingEcmp ek (calls hw) -
  b2z (bool_decide (nhops <> []) && bool_decide ((vrf_ r, nhops) = ek)).
Proof.
  destruct nhops as [|n nhops]; simpl.
  - intros [= <-]. lia.
  - intros H. rewrite (derefBcmEcmpHost_calls _ _ _ H), outstandingEcmp_app,
      outstandingEcmp_deref. simpl.
    repeat case_bool_decide; simpl; first [lia | congruence].
Qed.

Lemma outstandingEcmp_resolveEgress ek pf fwd r hw e hw1 :
  resolveEgress pf fwd r hw = Some (e, hw1) ->
  outstandingEcmp ek (calls hw1) =
  outstandingEcmp ek (calls hw) +
  b2z (bool_decide (getNextHopSet fwd <> []) &&
       bool_decide ((vrf_ r, getNextHopSet fwd) = ek)).
Proof.
  intros H. apply resolveEgress_inv in H as [(Hn & -> & _)|(Hn & _ & H)].
  - rewrite Hn. repeat case_bool_decide; simpl; first [lia | congruence].
  - pose proof (incRefOrCreateBcmEcmpHost_calls
                  (vrf_ r, getNextHopSet fwd) hw) as C.
    rewrite <- H in C. simpl in C.
    rewrite C, outstandingEcmp_app, outstandingEcmp_inc.
    repeat case_bool_decide; simpl; first [lia | congruence].
Qed.

(** ** Counting the entries that point at an egress object *)

Lemma filter_length_Permutation {A} (p : A -> bool) (l l' : list A) :
  Permutation l l' -> length (List.filter p l) = length (List.filter p l').
Proof.
  induction 1 as [|x l l' _ IH|x y l|l l' l'' _ IH1 _ IH2]; simpl.
  - reflexivity.
  - destruct (p x); simpl; congruence.
  - destruct (p x), (p y); reflexivity.
  - congruence.
Qed.

Lemma entriesPointingAt_empty ek : entriesPointingAt ek ∅ = 0.
Proof. unfold entriesPointingAt. by rewrite map_to_list_empty. Qed.

Lemma entriesPointingAt_fresh (ek : EcmpKey) (k : Key) (r : BcmRoute)
    (fib : gmap Key BcmRoute) :
  fib !! k = None ->
  entriesPointingAt ek (<[k := r]> fib) =
  entriesPointingAt ek fib + b2z (pointsAt ek r).
Proof.
  intros H. unfold entriesPointingAt.
  rewrite (filter_length_Permutation _ _ _ (map_to_list_insert fib k r H)).
  simpl. destruct (pointsAt ek r); simpl; lia.
Qed.

Lemma entriesPointingAt_delete (ek : EcmpKey) (k : Key) (fib : gmap Key BcmRoute) :
  entriesPointingAt ek (delete k fib) =
  entriesPointingAt ek fib -
  match fib !! k with Some old => b2z (pointsAt ek old) | None => 0 end.
Proof.
  destruct (fib !! k) as [old|] eqn:H.
  - unfold entriesPointingAt.
    rewrite <- (filter_length_Permutation _ _ _ (map_to_list_delete fib k old H)).
    simpl. destruct (pointsAt ek old); simpl; lia.
  - rewrite delete_id by exact H. lia.
Qed.

Lemma entriesPointingAt_insert (ek : EcmpKey) (k : Key) (r : BcmRoute)
    (fib : gmap Key BcmRoute) :
  entriesPointingAt ek (<[k := r]> fib) =
  entriesPointingAt ek fib -
  match fib !! k with Some old => b2z (pointsAt ek old) | None => 0 end +
  b2z (pointsAt ek r).
Proof.
  rewrite <- insert_delete_eq, entriesPointingAt_fresh
    by apply lookup_delete_eq.
  rewrite entriesPointingAt_delete. lia.
Qed.

(** ** [program] and [~BcmRoute] keep acquire and release calls in step
       with what the entry points at *)

Lemma pointsAt_valid ek r :
  validFwd r ->
  pointsAt ek r =
  added_ r && bool_decide (getNextHopSet (fwd_ r) <> []) &&
  bool_decide ((vrf_ r, getNextHopSet (fwd_ r)) = ek).
Proof.
  unfold validFwd, pointsAt. intros V.
  destruct (added_ r); [|reflexivity]. simpl.
  destruct (fwd_ r) as [d|d|nhs d]; simpl in *; try reflexivity.
  rewrite (bool_decide_eq_true_2 (nhs <> [])); [reflexivity|]. by apply V.
Qed.

Lemma program_Done_outstanding pf ok fwd r hw r' hw' :
  program pf ok fwd r hw = Done (r', hw') -> validFwd r ->
  validFwd r' /\
  forall ek,
    outstandingEcmp ek (calls hw') =
    outstandingEcmp ek (calls hw) + b2z (pointsAt ek r') - b2z (pointsAt ek r).
Proof.
  intros H V.
  apply program_Done_inv in H
    as [(_ & _ & -> & ->)|(e & hw1 & hw2 & R & I & C & ->)].
  - split; [exact V|]. intros ek. lia.
  - pose proof (ecmpFrame_installRoute _ _ _ _ _ _ _ (or_introl I)) as F.
    assert (V' : validFwd
              {| vrf_ := vrf_ r; prefix_ := prefix_ r; len_ := len_ r;
                 fwd_ := fwd; egressId_ := e; added_ := true |}).
    { intros _ Ha. simpl in *.
      apply resolveEgress_inv in R as [(_ & _ & Hne)|(Hne & _)]; done. }
    split; [exact V'|]. intros ek.
    rewrite (pointsAt_valid ek _ V'), (pointsAt_valid ek r V). simpl.
    assert (O2 : outstandingEcmp ek (calls hw2) =
                 outstandingEcmp ek (calls hw) +
                 b2z (bool_decide (getNextHopSet fwd <> []) &&
                      bool_decide ((vrf_ r, getNextHopSet fwd) = ek))).
    { rewrite (outstandingEcmp_frame ek _ _ F).
      apply (outstandingEcmp_resolveEgress ek _ _ _ _ _ _ R). }
    destruct (added_ r); simpl.
    + rewrite (outstandingEcmp_cleanupHost ek _ _ _ _ C), O2. lia.
    + injection C as <-. rewrite O2. lia.
Qed.

Lemma ecmpFrame_destroy_removed pf r hw hw1 :
  (if canUseHostTable pf r then
     match getBcmHostIf (vrf_ r, prefix_ r) hw with
     | None => None
     | Some _ => derefBcmHost (vrf_ r, prefix_ r) hw
     end
   else Some (deleteLpmRoute (vrf_ r) (prefix_ r) (len_ r) hw).2) = Some hw1 ->
  ecmpFrame hw hw1.
Proof.
  destruct (canUseHostTable pf r).
  - destruct (getBcmHostIf _ hw); [|discriminate].
    apply ecmpFrame_derefBcmHost.
  - intros [= <-]. apply ecmpFrame_deleteLpmRoute.
Qed.

Lemma destroyBcmRoute_outstanding pf r hw hw' :
  destroyBcmRoute pf r hw = Some hw' -> validFwd r ->
  forall ek,
    outstandingEcmp ek (calls hw') =
    outstandingEcmp ek (calls hw) - b2z (pointsAt ek r).
Proof.
  intros H V ek. rewrite (pointsAt_valid ek r V).
  unfold destroyBcmRoute in H. destruct (added_ r); simpl in *.
  - destruct (if canUseHostTable pf r then _ else _) as [hw1|] eqn:D;
      [|discriminate].
    apply ecmpFrame_destroy_removed in D.
    rewrite <- (outstandingEcmp_frame ek _ _ D).
    apply (outstandingEcmp_cleanupHost ek r (getNextHopSet (fwd_ r))).
    by destruct (getNextHopSet (fwd_ r)).
  - injection H as <-. lia.
Qed.

(** The invariant of a table and its switch: what was acquired and not yet
    released is what the entries point at (over the baseline [base]). *)
Lemma addRoute_conserves pf W ok vrf route fib hw fib' hw' base :
  addRoute pf W ok vrf route fib hw = Done (fib', hw') ->
  (forall k r, fib !! k = Some r -> validFwd r) ->
  (forall ek, outstandingEcmp ek (calls hw) = base ek + entriesPointingAt ek fib) ->
  (forall k r, fib' !! k = Some r -> validFwd r) /\
  (forall ek, outstandingEcmp ek (calls hw') = base ek + entriesPointingAt ek fib').
Proof.
  unfold addRoute. set (key := routeKey vrf route).
  intros H V O.
  destruct (isResolved route); simpl in H; [|destruct (fib !! key); discriminate].
  set (fwd := match getAction (getForwardInfo route) with
              | NEXTHOPS => _ | _ => _ end) in H.
  destruct (fib !! key) as [old|] eqn:L.
  - destruct (program pf ok fwd old hw) as [[r' hw1]|[r' hw1]|] eqn:P;
      try discriminate.
    injection H as <- <-.
    destruct (program_Done_outstanding _ _ _ _ _ _ _ P (V _ _ L)) as [V' O'].
    split.
    + intros k r. rewrite lookup_insert. case_decide; [by intros [= <-]|apply V].
    + intros ek. rewrite O', O, entriesPointingAt_insert, L. lia.
  - set (new := newBcmRoute vrf (prefix_network route) (prefix_mask route)) in H.
    destruct (program pf ok fwd new hw) as [[r' hw1]|[r' hw1]|] eqn:P;
      try discriminate.
    injection H as <- <-.
    assert (Vn : validFwd new) by (intros Ha; discriminate Ha).
    destruct (program_Done_outstanding _ _ _ _ _ _ _ P Vn) as [V' O'].
    rewrite insert_insert_eq. split.
    + intros k r. rewrite lookup_insert. case_decide; [by intros [= <-]|apply V].
    + intros ek. rewrite O', O, entriesPointingAt_insert, L.
      unfold pointsAt at 2. simpl. lia.
Qed.

Lemma deleteRoute_conserves pf vrf route fib hw fib' hw' base :
  deleteRoute pf vrf route fib hw = Done (fib', hw') ->
  (forall k r, fib !! k = Some r -> validFwd r) ->
  (forall ek, outstandingEcmp ek (calls hw) = base ek + entriesPointingAt ek fib) ->
  (forall k r, fib' !! k = Some r -> validFwd r) /\
  (forall ek, outstandingEcmp ek (calls hw') = base ek + entriesPointingAt ek fib').
Proof.
  unfold deleteRoute. set (key := routeKey vrf route). intros H V O.
  destruct (fib !! key) as [old|] eqn:L; [|discriminate].
  destruct (destroyBcmRoute pf old hw) as [hw1|] eqn:D; [|discriminate].
  injection H as <- <-. split.
  - intros k r Hk. apply lookup_delete_Some in Hk as [_ Hk]. by eapply V.
  - intros ek.
    rewrite (destroyBcmRoute_outstanding _ _ _ _ D (V _ _ L) ek), O,
      entriesPointingAt_delete, L. lia.
Qed.

Lemma runSuccessful_conserves pf W ops : forall fib hw fib' hw' base,
  runSuccessful pf W ops (fib, hw) = Some (fib', hw') ->
  (forall k r, fib !! k = Some r -> validFwd r) ->
  (forall ek, outstandingEcmp ek (calls hw) = base ek + entriesPointingAt ek fib) ->
  forall ek, outstandingEcmp ek (calls hw') = base ek + entriesPointingAt ek fib'.
Proof.
  induction ops as [|op ops IH]; intros fib hw fib' hw' base H V O; simpl in H.
  - by injection H as <- <-.
  - destruct (applyOp pf W op (fib, hw)) as [[fib1 hw1]| |] eqn:A;
      try discriminate.
    destruct op as [ok vrf route|vrf route]; simpl in A.
    + destruct (addRoute_conserves _ _ _ _ _ _ _ _ _ base A V O) as [V1 O1].
      by eapply IH.
    + destruct (deleteRoute_conserves _ _ _ _ _ _ _ base A V O) as [V1 O1].
      by eapply IH.
Qed.

(** ** What [~BcmRoute] does to a backed entry *)


Lemma derefBcmHost_rest hk hw hw' :
  derefBcmHost hk hw = Some hw' ->
  l3Routes hw' = l3Routes hw /\ warmBootCache hw' = warmBootCache hw.
Proof.
  unfold derefBcmHost. destruct (hosts (hostTable hw) !! hk); [|discriminate].
  by intros [= <-].
Qed.



Lemma deleteLpmRoute_absent vrf p l hw :
  l3Routes hw !! (p, l, vrf) = None ->
  deleteLpmRoute vrf p l hw = (false, logCall (L3RouteDelete (p, l, vrf)) hw).
Proof.
  unfold deleteLpmRoute.
  change (l3_key (initL3RouteFromArgs vrf p l)) with (p, l, vrf).
  by intros ->.
Qed.



(** ** [program] when the hardware write succeeds *)

Lemma hostLpmKey_isHostRoute r :
  isHostRoute r = true ->
  hostLpmKey (vrf_ r, prefix_ r) = (prefix_ r, len_ r, vrf_ r).
Proof.
  unfold isHostRoute, hostLpmKey. simpl.
  destruct (isV6 (prefix_ r)); intros H; apply Z.eqb_eq in H; by rewrite H.
Qed.

Lemma programHostRoute_true r e fwd rp hw :
  exists hw',
    programHostRoute true r e fwd rp hw = Done hw' /\
    (exists h, hosts (hostTable hw') !! (vrf_ r, prefix_ r) = Some h /\
               host_addedInHw h = true /\ host_egressId h = e) /\
    l3Routes hw' =
      (if rp then delete (hostLpmKey (vrf_ r, prefix_ r)) (l3Routes hw)
       else l3Routes hw) /\
    warmBootCache hw' = warmBootCache hw /\
    In (AddToBcmHostTable (vrf_ r, prefix_ r) e
          (1 <? Z.of_nat (length (getNextHopSet fwd))) rp true) (calls hw').
Proof.
  unfold programHostRoute. eexists. split; [reflexivity|].
  set (hk := (vrf_ r, prefix_ r)).
  unfold addToBcmHostTable, setEgressId, incRefOrCreateBcmHost.
  destruct (hosts (hostTable hw) !! hk) as [h0|] eqn:E; simpl;
    rewrite lookup_alter_eq, lookup_insert_eq; simpl;
    (split; [|split; [|split]]);
    try (destruct rp; simpl; rewrite !lookup_alter_eq, lookup_insert_eq;
         simpl; by eexists);
    try (by destruct rp);
    (destruct rp; simpl; apply in_or_app; right; by left).
Qed.

Lemma programViaHostTable_true pf fwd r e hw1 :
  isHostRoute r = true ->
  (added_ r = true -> is_Some (hosts (hostTable hw1) !! (vrf_ r, prefix_ r))) ->
  exists hw2,
    programViaHostTable pf true fwd r e hw1 = Done hw2 /\
    (exists h, hosts (hostTable hw2) !! (vrf_ r, prefix_ r) = Some h /\
               host_addedInHw h = true /\ host_egressId h = e) /\
    (is_Some (findHostRouteFromRouteTable (vrf_ r) (prefix_ r) hw1) ->
     l3Routes hw2 !! (prefix_ r, len_ r, vrf_ r) = None /\
     findHostRouteFromRouteTable (vrf_ r) (prefix_ r) hw2 = None /\
     In (AddToBcmHostTable (vrf_ r, prefix_ r) e
           (1 <? Z.of_nat (length (getNextHopSet fwd))) true true) (calls hw2) /\
     In (WarmBootProgrammedHostRoute (vrf_ r, prefix_ r)) (calls hw2)).
Proof.
  intros Hhost Hb. unfold programViaHostTable.
  set (hk := (vrf_ r, prefix_ r)) in *.
  assert (D : exists hw2,
             (if added_ r then
                match getBcmHostIf hk hw1 with
                | None => None
                | Some _ => derefBcmHost hk hw1
                end
              else Some hw1) = Some hw2 /\
             l3Routes hw2 = l3Routes hw1 /\
             warmBootCache hw2 = warmBootCache hw1).
  { destruct (added_ r).
    - destruct (Hb eq_refl) as [h Hh]. unfold getBcmHostIf. rewrite Hh.
      destruct (derefBcmHost_is_Some hk hw1) as [hw2 D]; [by eexists|].
      exists hw2. split; [exact D|]. by eapply derefBcmHost_rest.
    - by exists hw1. }
  destruct D as (hw2 & -> & L2 & W2).
  unfold findHostRouteFromRouteTable at 1 2. rewrite W2.
  destruct (programHostRoute_true r e fwd
              (match vrfAndIP2Route (warmBootCache hw1) !! (vrf_ r, prefix_ r)
               with Some _ => true | None => false end) hw2)
    as (hw3 & -> & Hh & L3 & W3 & C3).
  fold hk in Hh, L3, C3 |- *.
  destruct (vrfAndIP2Route (warmBootCache hw1) !! hk) as [ex|] eqn:F.
  2:{ exists hw3. split; [reflexivity|]. split; [exact Hh|].
      unfold findHostRouteFromRouteTable. fold hk. rewrite F.
      by intros [? [=]]. }
  assert (G : l3Routes hw3 !! (prefix_ r, len_ r, vrf_ r) = None).
  { rewrite L3, <- (hostLpmKey_isHostRoute r Hhost). apply lookup_delete_eq. }
  rewrite (deleteLpmRoute_absent _ _ _ _ G).
  set (hw4 := if dchecksEnabled pf
              then logCall (L3RouteDelete (prefix_ r, len_ r, vrf_ r)) hw3
              else hw3).
  exists (programmedHostRoute hk hw4).
  assert (H4 : hosts (hostTable hw4) = hosts (hostTable hw3) /\
               l3Routes hw4 = l3Routes hw3 /\
               forall c, In c (calls hw3) -> In c (calls hw4)).
  { unfold hw4. destruct (dchecksEnabled pf); simpl; repeat split; auto.
    intros c Hc. apply in_or_app. by left. }
  destruct H4 as (H4a & H4b & H4c).
  split; [unfold hw4; by destruct (dchecksEnabled pf)|].
  split; [simpl; by rewrite H4a|].
  intros _. repeat split.
  - simpl. by rewrite H4b.
  - unfold findHostRouteFromRouteTable. simpl. apply lookup_delete_eq.
  - simpl. apply in_or_app. left. by apply H4c.
  - simpl. apply in_or_app. right. by left.
Qed.

Lemma programLpmRoute_true r e fwd hw :
  exists hw', programLpmRoute true r e fwd hw = Done hw'.
Proof.
  unfold programLpmRoute.
  destruct (findRoute (vrf_ r) (prefix_ r) (len_ r) hw) as [ex|];
    [destruct (negb (equivalent _ ex))|]; eexists; reflexivity.
Qed.

Lemma installRoute_true pf fwd r e hw1 :
  (added_ r = true -> canUseHostTable pf r = true ->
   is_Some (hosts (hostTable hw1) !! (vrf_ r, prefix_ r))) ->
  exists hw2, installRoute pf true fwd r e hw1 = Done hw2.
Proof.
  intros B. unfold installRoute.
  destruct (canUseHostTable pf r) eqn:C.
  - apply andb_true_iff in C as [C _].
    destruct (programViaHostTable_true pf fwd r e hw1 C) as (hw2 & H & _);
      [auto | by exists hw2].
  - apply programLpmRoute_true.
Qed.

Lemma cleanupHost_calls r nhops hw hw' :
  cleanupHost r nhops hw = Some hw' ->
  forall c, In c (calls hw) -> In c (calls hw').
Proof.
  destruct nhops as [|n nhops]; simpl.
  - by intros [= <-].
  - intros H c Hc. rewrite (derefBcmEcmpHost_calls _ _ _ H).
    apply in_or_app. by left.
Qed.

(** With a successful hardware write, a valid forwarding decision and a
    backed entry, [program] returns with the decision recorded. *)
Lemma program_true pf fwd r hw :
  (getAction fwd = NEXTHOPS -> getNextHopSet fwd <> []) ->
  backed pf hw r ->
  exists r' hw',
    program pf true fwd r hw = Done (r', hw') /\
    fwd_ r' = fwd /\ added_ r' = true /\
    vrf_ r' = vrf_ r /\ prefix_ r' = prefix_ r /\ len_ r' = len_ r.
Proof.
  intros Hv B. unfold program.
  destruct (added_ r && bool_decide (fwd = fwd_ r)) eqn:N.
  { apply andb_true_iff in N as [Ha N]. apply bool_decide_eq_true in N.
    exists r, hw. by repeat split. }
  assert (R : exists e hw1, resolveEgress pf fwd r hw = Some (e, hw1)).
  { unfold resolveEgress. destruct fwd as [d|d|[|n nhs] d]; simpl in *;
      try (eexists; eexists; reflexivity).
    - by destruct Hv.
    - destruct (incRefOrCreateBcmEcmpHost _ hw). eauto. }
  destruct R as (e & hw1 & R). rewrite R.
  pose proof (hosts_resolveEgress _ _ _ _ _ _ R) as (H1 & _).
  destruct (installRoute_true pf fwd r e hw1) as (hw2 & I).
  { intros Ha Hc. rewrite H1. by apply B. }
  rewrite I.
  pose proof (ecmpFrame_installRoute _ _ _ _ _ _ _ (or_introl I)) as [E2 _].
  assert (C : exists hw3,
             (if added_ r then cleanupHost r (getNextHopSet (fwd_ r)) hw2
              else Some hw2) = Some hw3).
  { destruct (added_ r) eqn:Ha; [|by eexists].
    destruct (getNextHopSet (fwd_ r)) as [|n nhs] eqn:G; [by eexists|].
    simpl. apply derefBcmEcmpHost_is_Some. rewrite E2.
    assert (P : is_Some (ecmpHosts (hostTable hw) !! (vrf_ r, n :: nhs))).
    { rewrite <- G. apply B; [exact Ha | by rewrite G]. }
    apply resolveEgress_inv in R as [(_ & -> & _)|(_ & _ & R)]; [exact P|].
    assert (hw1 = (incRefOrCreateBcmEcmpHost
                     (vrf_ r, getNextHopSet fwd) hw).2) as -> by by rewrite <- R.
    by apply incRefOrCreateBcmEcmpHost_keeps. }
  destruct C as (hw3 & ->). eexists. eexists. by repeat split.
Qed.

(** ** Normalisation only removes next hops *)

Lemma decrementMax_incl s i :
  is_set s -> In i (map ident (decrementMax s)) -> In i (map ident s).
Proof.
  intros Hs. unfold decrementMax.
  destruct (max_element s) as [m|] eqn:Hm; [|auto].
  destruct (max_element_spec s m Hm) as [Hin _].
  set (decMax := ResolvedNextHop (addr m) (intf m) (weight m - 1)).
  destruct (set_erase_insert_split m decMax s Hs Hin eq_refl)
    as (l1 & l2 & E1 & E2 & E3).
  destruct (0 <? weight decMax).
  - rewrite E3, E1, !map_app. auto.
  - rewrite E2, E1, !map_app, !in_app_iff. simpl. tauto.
Qed.

Lemma decrementMax_is_set s : is_set s -> is_set (decrementMax s).
Proof.
  intros Hs. unfold decrementMax.
  destruct (max_element s) as [m|]; [|exact Hs].
  destruct (0 <? _).
  - by apply set_insert_is_set, set_erase_is_set.
  - by apply set_erase_is_set.
Qed.

Lemma decrementMax_iter_incl n s i :
  is_set s ->
  In i (map ident (Nat.iter n decrementMax s)) -> In i (map ident s).
Proof.
  intros Hs. induction n as [|n IH]; [auto|].
  rewrite Nat.iter_succ. intros H. apply IH.
  apply decrementMax_incl; [|exact H].
  clear -Hs. induction n as [|n IH]; [exact Hs|].
  rewrite Nat.iter_succ. by apply decrementMax_is_set.
Qed.

Lemma normalizeNextHops_incl W S i :
  In i (map ident (normalizeNextHops W S)) -> In i (map ident S).
Proof.
  rewrite normalizeNextHops_unfold.
  set (N := coerceNextHops S).
  set (scaled := map (scaleNextHop (scaleFactor W (sum_weights N))) N).
  assert (Hs : is_set scaled).
  { apply is_set_map; [apply scaleNextHop_ident|apply coerceNextHops_is_set]. }
  assert (Hid : map ident scaled = map ident N).
  { unfold scaled. rewrite map_map. reflexivity. }
  intros H. apply coerceNextHops_ident. fold N.
  destruct (W <? sum_weights N); [|exact H].
  rewrite <- Hid. destruct (W <? sum_weights scaled); [|exact H].
  by eapply decrementMax_iter_incl.
Qed.

(** ** An exception comes from a failed hardware write *)



(** ** The scenarios of the specification, evaluated *)

Example scenario_zero_weights :
  normalizeNextHops 64 [hopA 0; hopB 0] = [hopA 1; hopB 1].
Proof. vm_compute. reflexivity. Qed.

Example scenario_equal_weights :
  normalizeNextHops 64 [hopA 100; hopB 100] = [hopA 32; hopB 32].
Proof. vm_compute. reflexivity. Qed.

Example scenario_decrement_drops_first_maximum :
  normalizeNextHops 2 [hopA 1; hopB 5; hopC 1] = [hopB 1; hopC 1].
Proof. vm_compute. reflexivity. Qed.

(** Removing one of two routes that share their next hops leaves the shared
    egress object alive and deletes only that route's hardware entry. *)
Example scenario_shared_egress_survives :
  exists fib hw,
    runSuccessful lpmPlatform 64 sharedNextHopsOps (∅, emptySwitch) =
      Some (fib, hw) /\
    ecmpRefCount (0, [hopA 1; hopB 1]) hw = 1 /\
    l3Routes hw !! (IPAddressV4 167837696, 16, 0) = None /\
    is_Some (l3Routes hw !! (IPAddressV4 167772161, 32, 0)).
Proof.
  eexists. eexists. split; [vm_compute; reflexivity|].
  split; [vm_compute; reflexivity|].
  split; [vm_compute; reflexivity | vm_compute; by eexists].
Qed.

(** A hardware failure while an entry that uses the host table is programmed
    again: the call releases the host-table object that the entry held
    before the call, so the entry stays [added_] without its object and its
    destructor later fails the [CHECK(host)]. *)
Example failed_reprogram_releases_the_previous_host_object :
  exists hw',
    program hostPlatform false (NextHopsEntry [hopB 1] 10)
            programmedHostEntry.1 programmedHostEntry.2 =
      Thrown (programmedHostEntry.1, hw') /\
    hostRefCount (0, IPAddressV4 167772161) programmedHostEntry.2 = 1 /\
    hostRefCount (0, IPAddressV4 167772161) hw' = 0 /\
    destroyBcmRoute hostPlatform programmedHostEntry.1 hw' = None.
Proof.
  eexists. split; [vm_compute; reflexivity|].
  split; [vm_compute; reflexivity|].
  split; vm_compute; reflexivity.
Qed.

(** A failed hardware write on the host-table path always surfaces as an
    exception. *)
Lemma programViaHostTable_false pf fwd r e hw1 :
  (added_ r = true -> is_Some (hosts (hostTable hw1) !! (vrf_ r, prefix_ r))) ->
  exists hw2, programViaHostTable pf false fwd r e hw1 = Thrown hw2.
Proof.
  intros Hb. unfold programViaHostTable.
  set (hk := (vrf_ r, prefix_ r)) in *.
  assert (D : exists hw2,
             (if added_ r then
                match getBcmHostIf hk hw1 with
                | None => None
                | Some _ => derefBcmHost hk hw1
                end
              else Some hw1) = Some hw2).
  { destruct (added_ r); [|by eexists].
    destruct (Hb eq_refl) as [h Hh]. unfold getBcmHostIf. rewrite Hh.
    apply derefBcmHost_is_Some. by eexists. }
  destruct D as (hw2 & ->).
  unfold programHostRoute. fold hk.
  set (hw3 := addToBcmHostTable false hk _ _ _).
  destruct (derefBcmHost_is_Some hk hw3) as [hw4 ->]; [|by eexists].
  unfold hw3, addToBcmHostTable, setEgressId, incRefOrCreateBcmHost.
  destruct (hosts (hostTable hw2) !! hk); simpl;
    rewrite lookup_alter_eq, lookup_insert_eq; by eexists.
Qed.

(** * Properties of normalisation *)





(** C10 -- Membership preservation: for every next-hop set [S] and width
    [W >= 1] with [|S| <= W], the output of [normalizeNextHops] has exactly
    the (address, interface) identities of [S]: the correction of step 2c
    drops no next hop, only weights change.  On a set the identities also
    come out in the same order. *)
Theorem normalize_membership (W : Z) (S : NextHopSet) :
  1 <= W -> Z.of_nat (length S) <= W ->
  (forall i, In i (map ident (normalizeNextHops W S)) <-> In i (map ident S)) /\
  (is_set S -> map ident (normalizeNextHops W S) = map ident S).
Proof.
  intros HW Hlen.
  assert (E : map ident (normalizeNextHops W S) = map ident (coerceNextHops S))
    by (apply normalizeNextHops_ident; lia).
  rewrite E. split.
  - intros i. apply coerceNextHops_ident.
  - intros HS. rewrite (coerceNextHops_set S HS), map_map. reflexivity.
Qed.

Lemma normalize_membership_witness :
  1 <= 3 /\ Z.of_nat (length [hopA 100; hopB 1; hopC 1]) <= 3 /\
  ((forall i, In i (map ident (normalizeNextHops 3 [hopA 100; hopB 1; hopC 1]))
              <-> In i (map ident [hopA 100; hopB 1; hopC 1])) /\
   (is_set [hopA 100; hopB 1; hopC 1] ->
    map ident (normalizeNextHops 3 [hopA 100; hopB 1; hopC 1]) =
    map ident [hopA 100; hopB 1; hopC 1])).
Proof.
  split; [lia|]. split; [simpl; lia|].
  apply (normalize_membership 3 [hopA 100; hopB 1; hopC 1]); simpl; lia.
Defined.




(** * Properties of [BcmRoute::program] *)



(** C6 -- No-op skip: when the entry is programmed ([added_]) and [program]
    is called with a forwarding decision equal to the recorded one, the call
    returns at once: the entry and the whole switch state, with its record of
    hardware writes and of egress acquire and release calls, are as before. *)
Theorem program_noop_skip (pf : BcmPlatform) (ok : bool)
    (fwd : RouteNextHopEntry) (r : BcmRoute) (hw : BcmSwitch) :
  added_ r = true -> fwd = fwd_ r ->
  program pf ok fwd r hw = Done (r, hw) /\
  (forall r' hw', program pf ok fwd r hw = Done (r', hw') ->
     r' = r /\ hw' = hw /\ calls hw' = calls hw /\
     countCalls isHardwareWrite (calls hw') =
       countCalls isHardwareWrite (calls hw)).
Proof.
  intros Ha ->. unfold program.
  rewrite Ha, bool_decide_eq_true_2 by reflexivity. simpl.
  split; [reflexivity|]. by intros r' hw' [= <- <-].
Qed.

Lemma program_noop_skip_witness :
  added_ programmedHostEntry.1 = true /\
  NextHopsEntry [hopA 1] 10 = fwd_ programmedHostEntry.1 /\
  program hostPlatform false (NextHopsEntry [hopA 1] 10)
          programmedHostEntry.1 programmedHostEntry.2 =
    Done (programmedHostEntry.1, programmedHostEntry.2).
Proof.
  split; [reflexivity|]. split; [reflexivity|].
  apply (program_noop_skip hostPlatform false (NextHopsEntry [hopA 1] 10)
           programmedHostEntry.1 programmedHostEntry.2); reflexivity.
Defined.

(** * Properties of the route table *)

(** C5 -- Refcount conservation: after any sequence of [addRoute] and
    [deleteRoute] calls that all returned, starting from the empty table,
    for every key [(vrf, nhops)] the number of [incRefOrCreateBcmEcmpHost]
    calls minus the number of [derefBcmEcmpHost] calls issued to the host
    table since the start equals the number of entries of the table whose
    current forwarding decision points at that next-hop set. *)
Theorem refcount_conservation (pf : BcmPlatform) (FLAGS_ecmp_width : Z)
    (ops : list TableOp) (hw0 hw : BcmSwitch) (fib : gmap Key BcmRoute) :
  runSuccessful pf FLAGS_ecmp_width ops (∅, hw0) = Some (fib, hw) ->
  forall (vrf : Z) (nhops : NextHopSet),
    (countCalls (isIncRefEcmp (vrf, nhops)) (calls hw) -
     countCalls (isIncRefEcmp (vrf, nhops)) (calls hw0)) -
    (countCalls (isDerefEcmp (vrf, nhops)) (calls hw) -
     countCalls (isDerefEcmp (vrf, nhops)) (calls hw0)) =
    entriesPointingAt (vrf, nhops) fib.
Proof.
  intros H vrf nhops.
  pose proof (runSuccessful_conserves pf FLAGS_ecmp_width ops ∅ hw0 fib hw
                (fun ek => outstandingEcmp ek (calls hw0)) H) as C.
  unfold outstandingEcmp in C. rewrite <- (Z.add_0_l (entriesPointingAt _ fib)).
  specialize (C ltac:(intros k r; by rewrite lookup_empty)
                ltac:(intros ek; rewrite entriesPointingAt_empty; lia)
                (vrf, nhops)).
  lia.
Qed.

Lemma refcount_conservation_witness :
  exists fib hw,
    runSuccessful lpmPlatform 64 sharedNextHopsOps (∅, emptySwitch) =
      Some (fib, hw) /\
    entriesPointingAt (0, [hopA 1; hopB 1]) fib = 1 /\
    (countCalls (isIncRefEcmp (0, [hopA 1; hopB 1])) (calls hw) -
     countCalls (isIncRefEcmp (0, [hopA 1; hopB 1])) (calls emptySwitch)) -
    (countCalls (isDerefEcmp (0, [hopA 1; hopB 1])) (calls hw) -
     countCalls (isDerefEcmp (0, [hopA 1; hopB 1])) (calls emptySwitch)) =
    entriesPointingAt (0, [hopA 1; hopB 1]) fib.
Proof.
  eexists. eexists. split; [vm_compute; reflexivity|].
  split; [vm_compute; reflexivity|].
  eapply (refcount_conservation lpmPlatform 64 sharedNextHopsOps emptySwitch).
  vm_compute. reflexivity.
Defined.



(** C8 -- Host shortcut over a warm-booted LPM entry: for an entry whose
    prefix is full length for its family (/32 or /128), on a platform that
    can use the host table for host routes, when the warm boot cache holds
    the host route found in the LPM table for this (vrf, prefix), a call of
    [program] that is not the no-op and whose hardware write succeeds
    installs the host-table object with the resolved egress, the LPM entry
    of the prefix is gone from the hardware route table (removed by the
    installation, which is called with [replace]), and the cache entry is
    marked consumed. *)
Theorem host_shortcut_replaces_lpm (pf : BcmPlatform) (fwd : RouteNextHopEntry)
    (r : BcmRoute) (hw : BcmSwitch) (existing : opennsl_l3_route_t) :
  isHostRoute r = true ->
  canUseHostTableForHostRoutes pf = true ->
  findHostRouteFromRouteTable (vrf_ r) (prefix_ r) hw = Some existing ->
  added_ r && bool_decide (fwd = fwd_ r) = false ->
  (getAction fwd = NEXTHOPS -> getNextHopSet fwd <> []) ->
  backed pf hw r ->
  exists r' hw',
    program pf true fwd r hw = Done (r', hw') /\
    added_ r' = true /\ fwd_ r' = fwd /\
    (exists h, hosts (hostTable hw') !! (vrf_ r, prefix_ r) = Some h /\
               host_addedInHw h = true /\ host_egressId h = egressId_ r') /\
    l3Routes hw' !! (prefix_ r, len_ r, vrf_ r) = None /\
    findHostRouteFromRouteTable (vrf_ r) (prefix_ r) hw' = None /\
    In (AddToBcmHostTable (vrf_ r, prefix_ r) (egressId_ r')
          (1 <? Z.of_nat (length (getNextHopSet fwd))) true true) (calls hw') /\
    In (WarmBootProgrammedHostRoute (vrf_ r, prefix_ r)) (calls hw').
Proof.
  intros Hhost Hpf Hfind Hnoop Hv B.
  destruct (program_true pf fwd r hw Hv B) as (r' & hw' & P & Hf & Ha & _).
  exists r', hw'. split; [exact P|]. split; [exact Ha|]. split; [exact Hf|].
  apply program_Done_inv in P
    as [(Ha' & Hfw & _)|(e & hw1 & hw2 & R & I & C & ->)].
  { rewrite Ha', bool_decide_eq_true_2 in Hnoop by exact Hfw. discriminate. }
  pose proof (hosts_resolveEgress _ _ _ _ _ _ R) as (H1 & _ & W1).
  unfold installRoute, canUseHostTable in I. rewrite Hhost, Hpf in I.
  simpl in I.
  destruct (programViaHostTable_true pf fwd r e hw1 Hhost)
    as (hw2' & I' & Hh & Hrest).
  { intros Hadd. rewrite H1. apply B; [exact Hadd|].
    unfold canUseHostTable. by rewrite Hhost, Hpf. }
  rewrite I in I'. injection I' as <-.
  destruct Hrest as (G1 & G2 & G3 & G4).
  { unfold findHostRouteFromRouteTable in *. rewrite W1, Hfind. by eexists. }
  assert (K : hosts (hostTable hw') = hosts (hostTable hw2) /\
              l3Routes hw' = l3Routes hw2 /\
              warmBootCache hw' = warmBootCache hw2 /\
              forall c, In c (calls hw2) -> In c (calls hw')).
  { destruct (added_ r).
    - pose proof (hosts_cleanupHost _ _ _ _ C) as (K1 & K2 & K3).
      repeat split; try assumption. by eapply cleanupHost_calls.
    - by injection C as <-. }
  destruct K as (K1 & K2 & K3 & K4). simpl.
  split; [by rewrite K1|]. split; [by rewrite K2|].
  split; [unfold findHostRouteFromRouteTable in *; by rewrite K3|].
  split; by apply K4.
Qed.

Lemma host_shortcut_replaces_lpm_witness :
  isHostRoute (newBcmRoute 0 (IPAddressV4 167772161) 32) = true /\
  is_Some (l3Routes warmBootedSwitch !! (IPAddressV4 167772161, 32, 0)) /\
  exists r' hw',
    program hostPlatform true (NextHopsEntry [hopA 1] 10)
            (newBcmRoute 0 (IPAddressV4 167772161) 32) warmBootedSwitch =
      Done (r', hw') /\
    l3Routes hw' !! (IPAddressV4 167772161, 32, 0) = None /\
    findHostRouteFromRouteTable 0 (IPAddressV4 167772161) hw' = None.
Proof.
  split; [reflexivity|]. split; [vm_compute; by eexists|].
  destruct (host_shortcut_replaces_lpm hostPlatform
              (NextHopsEntry [hopA 1] 10)
              (newBcmRoute 0 (IPAddressV4 167772161) 32)
              warmBootedSwitch warmBootedRoute)
    as (r' & hw' & P & _ & _ & _ & L & F & _).
  - reflexivity.
  - reflexivity.
  - vm_compute. reflexivity.
  - reflexivity.
  - intros _. discriminate.
  - intros Ha. discriminate Ha.
  - exists r', hw'. by repeat split.
Defined.




(** * Further properties of normalisation *)

Lemma is_set_NoDup s : is_set s -> List.NoDup (map ident s).
Proof.
  unfold is_set. induction 1 as [|x s Hs IH Hx]; simpl; constructor.
  - intros Hin. apply in_map_iff in Hin as (y & Hy & Hin).
    rewrite List.Forall_forall in Hx. specialize (Hx y Hin).
    unfold nhop_lt in Hx.
    rewrite (proj2 (nhop_compare_eq_ident x y)) in Hx by done. discriminate.
  - exact IH.
Qed.

Lemma decrementMax_iter_is_set n s :
  is_set s -> is_set (Nat.iter n decrementMax s).
Proof.
  intros Hs. induction n as [|n IH]; [exact Hs|].
  rewrite Nat.iter_succ. by apply decrementMax_is_set.
Qed.

Lemma normalizeNextHops_is_set W S : is_set (normalizeNextHops W S).
Proof.
  rewrite normalizeNextHops_unfold.
  set (N := coerceNextHops S).
  set (scaled := map (scaleNextHop (scaleFactor W (sum_weights N))) N).
  assert (HN : is_set N) by apply coerceNextHops_is_set.
  assert (Hs : is_set scaled)
    by (apply is_set_map; [apply scaleNextHop_ident | exact HN]).
  destruct (W <? sum_weights N); [|exact HN].
  destruct (W <? sum_weights scaled); [|exact Hs].
  by apply decrementMax_iter_is_set.
Qed.

(** X1 -- for every width that [ValidateEcmpWidth] accepts and every input,
    with no bound on the number of next hops, the output of
    [normalizeNextHops] has a total weight of at most the width and only
    weights of at least 1. *)
Theorem normalize_under_accepted_width (W : Z) (S : NextHopSet) :
  ValidateEcmpWidth W = true ->
  totalWeightOf (normalizeNextHops W S) <= W /\
  Forall (fun n => 1 <= weight n) (normalizeNextHops W S) /\
  Z.of_nat (length (normalizeNextHops W S)) <= W.
Proof.
  unfold ValidateEcmpWidth. destruct (Z.ltb_spec W 0); [discriminate|].
  intros _. rewrite totalWeightOf_sum.
  destruct (normalizeNextHops_inv W S) as (_ & Hw & Hsum); [lia|].
  pose proof (sum_weights_ge_length _ Hw).
  repeat split; [exact Hsum | exact Hw | lia].
Qed.

Lemma normalize_under_accepted_width_witness :
  ValidateEcmpWidth 2 = true /\
  totalWeightOf (normalizeNextHops 2 [hopA 1; hopB 5; hopC 1]) <= 2 /\
  Forall (fun n => 1 <= weight n) (normalizeNextHops 2 [hopA 1; hopB 5; hopC 1]) /\
  Z.of_nat (length (normalizeNextHops 2 [hopA 1; hopB 5; hopC 1])) <= 2.
Proof.
  split; [reflexivity|].
  apply (normalize_under_accepted_width 2 [hopA 1; hopB 5; hopC 1]).
  reflexivity.
Defined.

(** X2 -- when the weights of a set, zero counted as 1, sum to no more than
    the width, [normalizeNextHops] only replaces weights below 1 by 1: the
    next hops, their order and every other weight are as in the input. *)
Theorem normalize_within_width (W : Z) (S : NextHopSet) :
  is_set S -> totalWeightOf (map coerceWeight S) <= W ->
  normalizeNextHops W S = map coerceWeight S /\
  (Forall (fun n => 1 <= weight n) S -> normalizeNextHops W S = S).
Proof.
  intros HS Hsum. rewrite totalWeightOf_sum in Hsum.
  assert (E : normalizeNextHops W S = map coerceWeight S).
  { rewrite normalizeNextHops_unfold, (coerceNextHops_set S HS).
    destruct (Z.ltb_spec W (sum_weights (map coerceWeight S))); [lia|done]. }
  split; [exact E|]. intros Hw. rewrite E.
  rewrite <- (coerceNextHops_set S HS). by apply coerceNextHops_fixed.
Qed.

Lemma normalize_within_width_witness :
  is_set [hopA 0; hopB 7] /\
  totalWeightOf (map coerceWeight [hopA 0; hopB 7]) <= 64 /\
  normalizeNextHops 64 [hopA 0; hopB 7] = [hopA 1; hopB 7].
Proof.
  assert (HS : is_set [hopA 0; hopB 7]) by repeat constructor.
  split; [exact HS|]. split; [vm_compute; discriminate|].
  destruct (normalize_within_width 64 [hopA 0; hopB 7] HS) as [E _];
    [vm_compute; discriminate|].
  rewrite E. reflexivity.
Defined.

(** X3 -- for every width and input, the output of [normalizeNextHops] is a
    set (no two next hops share an identity) whose next hops all are next
    hops of the input: normalisation never adds and never duplicates a next
    hop, so the output is no longer than the input. *)
Theorem normalize_never_adds (W : Z) (S : NextHopSet) :
  List.NoDup (map ident (normalizeNextHops W S)) /\
  (forall i, In i (map ident (normalizeNextHops W S)) -> In i (map ident S)) /\
  (length (normalizeNextHops W S) <= length S)%nat.
Proof.
  pose proof (is_set_NoDup _ (normalizeNextHops_is_set W S)) as Hnd.
  assert (Hincl : forall i, In i (map ident (normalizeNextHops W S)) ->
                            In i (map ident S))
    by (intros i; apply normalizeNextHops_incl).
  split; [exact Hnd|]. split; [exact Hincl|].
  rewrite <- (length_map ident (normalizeNextHops W S)),
          <- (length_map ident S).
  by apply List.NoDup_incl_length.
Qed.

(** X4 -- width 0, which the validator accepts, empties every input. *)
Theorem normalize_zero_width (S : NextHopSet) :
  ValidateEcmpWidth 0 = true /\ normalizeNextHops 0 S = [].
Proof.
  split; [reflexivity|].
  destruct (normalizeNextHops_inv 0 S) as (_ & Hw & Hsum); [lia|].
  pose proof (sum_weights_ge_length _ Hw) as Hl. revert Hl Hsum.
  destruct (normalizeNextHops 0 S); [reflexivity|].
  simpl length. lia.
Qed.

(** * The order of the table keys *)

Lemma ip_ltb_irrefl a : ip_ltb a a = false.
Proof. unfold ip_ltb. by rewrite ip_compare_refl. Qed.

Lemma ip_ltb_trans a b c :
  ip_ltb a b = true -> ip_ltb b c = true -> ip_ltb a c = true.
Proof.
  unfold ip_ltb.
  destruct (ip_compare a b) eqn:E1; try discriminate.
  destruct (ip_compare b c) eqn:E2; try discriminate.
  by rewrite (ip_compare_trans _ _ _ E1 E2).
Qed.

Lemma ip_ltb_total a b : ip_ltb a b = false -> ip_ltb b a = false -> a = b.
Proof.
  unfold ip_ltb. rewrite (ip_compare_antisym a b).
  destruct (ip_compare a b) eqn:E; simpl; try discriminate.
  intros _ _. by apply ip_compare_eq.
Qed.

(** X5 -- [Key::operator<] is a strict total order on keys whenever the order
    of addresses is one: it is irreflexive and transitive, and two keys that
    are unordered either way are the same key, which is what [std::map]
    needs to hold exactly one entry per (vrf, network, mask).  It orders by
    vrf first, then by mask, then by network. *)
Theorem Key_lt_strict_total_order (network_lt : IPAddress -> IPAddress -> bool) :
  (forall a, network_lt a a = false) ->
  (forall a b c, network_lt a b = true -> network_lt b c = true ->
                 network_lt a c = true) ->
  (forall a b, network_lt a b = false -> network_lt b a = false -> a = b) ->
  (forall k, Key_lt network_lt k k = false) /\
  (forall k1 k2 k3, Key_lt network_lt k1 k2 = true ->
                    Key_lt network_lt k2 k3 = true ->
                    Key_lt network_lt k1 k3 = true) /\
  (forall k1 k2, Key_lt network_lt k1 k2 = false ->
                 Key_lt network_lt k2 k1 = false -> k1 = k2) /\
  (forall n1 m1 v1 n2 m2 v2,
     Key_lt network_lt (n1, m1, v1) (n2, m2, v2) = true <->
     v1 < v2 \/
     (v1 = v2 /\ (m1 < m2 \/ (m1 = m2 /\ network_lt n1 n2 = true)))).
Proof.
  intros Hirr Htr Htot.
  assert (Hchar : forall n1 m1 v1 n2 m2 v2,
     Key_lt network_lt (n1, m1, v1) (n2, m2, v2) = true <->
     v1 < v2 \/
     (v1 = v2 /\ (m1 < m2 \/ (m1 = m2 /\ network_lt n1 n2 = true)))).
  { intros. unfold Key_lt.
    destruct (Z.ltb_spec v1 v2); [intuition lia|].
    destruct (Z.ltb_spec v2 v1); [intuition (lia || discriminate)|].
    destruct (Z.ltb_spec m1 m2); [intuition lia|].
    destruct (Z.ltb_spec m2 m1); [intuition (lia || discriminate)|].
    intuition lia. }
  split; [|split; [|split; [|exact Hchar]]].
  - intros [[n m] v]. destruct (Key_lt network_lt (n, m, v) (n, m, v)) eqn:E;
      [|reflexivity].
    apply Hchar in E as [E|(_ & [E|(_ & E)])]; try lia.
    by rewrite Hirr in E.
  - intros [[n1 m1] v1] [[n2 m2] v2] [[n3 m3] v3] H1 H2.
    apply Hchar in H1, H2. apply Hchar.
    destruct H1 as [H1|(-> & [H1|(-> & H1)])];
      destruct H2 as [H2|(-> & [H2|(-> & H2)])];
      try (left; lia); try (right; split; [reflexivity|left; lia]).
    right. split; [reflexivity|]. right. split; [reflexivity|]. by eapply Htr.
  - intros [[n1 m1] v1] [[n2 m2] v2] H1 H2. unfold Key_lt in H1, H2.
    destruct (Z.ltb_spec v1 v2); [discriminate|].
    destruct (Z.ltb_spec v2 v1); [discriminate|].
    destruct (Z.ltb_spec m1 m2); [discriminate|].
    destruct (Z.ltb_spec m2 m1); [discriminate|].
    assert (v1 = v2) as -> by lia. assert (m1 = m2) as -> by lia.
    by rewrite (Htot n1 n2 H1 H2).
Qed.

Lemma Key_lt_strict_total_order_witness :
  (forall a, ip_ltb a a = false) /\
  (forall a b c, ip_ltb a b = true -> ip_ltb b c = true -> ip_ltb a c = true) /\
  (forall a b, ip_ltb a b = false -> ip_ltb b a = false -> a = b) /\
  Key_lt ip_ltb (IPAddressV4 167837696, 16, 0) (IPAddressV4 167772161, 32, 0)
    = true /\
  Key_lt ip_ltb (IPAddressV4 167772161, 32, 0) (IPAddressV4 167772161, 32, 0)
    = false.
Proof.
  split; [exact ip_ltb_irrefl|]. split; [exact ip_ltb_trans|].
  split; [exact ip_ltb_total|].
  destruct (Key_lt_strict_total_order ip_ltb ip_ltb_irrefl ip_ltb_trans
              ip_ltb_total) as (Hirr & _ & _ & Hchar).
  split; [|apply Hirr].
  apply Hchar. right. split; [reflexivity|]. left. lia.
Defined.
